(** * Web-frontend support utilities: security, CORS, CSP, SSR guards

    A shallow embedding of [src/lib/security.ts], [src/lib/cors.ts],
    [src/lib/ssr-utils.ts], of the CSP helpers and of the reconnect
    back-off formula of the error handling guide, followed by the
    properties established about them.

    Conventions of the embedding:
    - a JavaScript string is the list of its UTF-16 code units ([N]), so
      [length] is [String.prototype.length];
    - a JavaScript number is a binary64 value ([Number.num]): NaN, an
      infinity, or a rational, and every product and sum is rounded to
      the nearest double, ties to even, overflowing to an infinity; the
      sign of a zero is not kept, as nothing here divides by a result;
      the length limit of [validateInput], which is only ever compared
      with a length, is a rational;
    - ambient globals ([window], [document], [localStorage], ...) are the
      fields of an explicit environment record, absent globals are [None];
    - a call that may raise returns a [completion]: [Normal v] or [Throw e];
    - [Record<string, string>] is a [gmap] from strings to strings. *)

From Stdlib Require Import NArith ZArith QArith List Bool Ascii String Lia.
From Stdlib Require Import PrimFloat FloatOps SpecFloat.
From stdpp Require Import base option list gmap.

Set Default Proof Using "Type".

(* ------------------------------------------------------------------ *)
(** ** JavaScript values shared by all modules *)

Module JS.

(** UTF-16 code units. *)
Definition jsstring : Type := list N.

(** The code units of an ASCII literal of the source text. *)
Definition lit (s : string) : jsstring :=
  map N_of_ascii (list_ascii_of_string s).

(** ToBoolean on a string: the empty string is the only falsy one. *)
Definition truthy (s : jsstring) : bool :=
  match s with
  | [] => false
  | _ :: _ => true
  end.

(** [Array.prototype.join] on an array of strings. *)
Fixpoint join (sep : jsstring) (parts : list jsstring) : jsstring :=
  match parts with
  | [] => []
  | [p] => p
  | p :: rest => p ++ sep ++ join sep rest
  end.

(** [Array.prototype.includes] on an array of strings (SameValueZero
    on strings is equality of the code unit sequences). *)
Definition includes (xs : list jsstring) (x : jsstring) : bool :=
  existsb (fun y => bool_decide (y = x)) xs.

(** [String.prototype.substring(from, to)] for [0 <= from <= to]. *)
Definition substring (from to : nat) (s : jsstring) : jsstring :=
  take (to - from) (drop from s).

(** Errors the embedded code can raise. *)
Inductive error : Type :=
| ReferenceError (name : string)
| TypeError (not_a_function : string).

(** Completion of a call. *)
Inductive completion (A : Type) : Type :=
| Normal (v : A)
| Throw (e : error).
Arguments Normal {A} v.
Arguments Throw {A} e.

Definition returns {A : Type} (c : completion A) : Prop :=
  exists v, c = Normal v.

Definition bind {A B : Type} (c : completion A) (k : A -> completion B)
  : completion B :=
  match c with
  | Normal v => k v
  | Throw e => Throw e
  end.

(** [s] occurs in [t] as a contiguous substring. *)
Definition occurs_in (s t : jsstring) : Prop :=
  exists pre post, t = pre ++ s ++ post.

End JS.
Import JS.

(* ------------------------------------------------------------------ *)
(** ** Regular expressions, as far as [security.ts] uses them *)

Module RegExp.

(** Character class escapes. *)
Inductive char_class : Type :=
| Word    (* \w *)
| Space.  (* \s *)

Inductive pattern : Type :=
| Fail
| Eps
| Chr (c : N)
| Cls (k : char_class)
| Seq (r1 r2 : pattern)
| Alt (r1 r2 : pattern)
| Star (r : pattern).

(** [r+] *)
Definition Plus (r : pattern) : pattern := Seq r (Star r).

(** The pattern of a literal run of characters. *)
Fixpoint Lit (s : jsstring) : pattern :=
  match s with
  | [] => Eps
  | [c] => Chr c
  | c :: s' => Seq (Chr c) (Lit s')
  end.

(** A regular expression object: its pattern and its [i] flag. *)
Record regexp : Type := mkRegExp {
  source : pattern;
  ignoreCase : bool
}.

Definition in_range (lo hi c : N) : bool := ((lo <=? c) && (c <=? hi))%N.

(** Canonicalize of the RegExp semantics without the [u] flag: with
    [i], a character is compared by its upper-case form, except that a
    non-ASCII character is never mapped to an ASCII one.  Only the
    ASCII part of the mapping is modelled; a non-ASCII code unit stays
    non-ASCII under the real mapping, and every pattern below is made
    of ASCII characters, [\w] and [\s], none of which a non-ASCII
    letter can reach. *)
Definition canonicalize (icase : bool) (c : N) : N :=
  if icase && in_range 97 122 c then (c - 32)%N else c.

(** Members of [\w] and of [\s] (WhiteSpace and LineTerminator). *)
Definition class_mem (k : char_class) (c : N) : bool :=
  match k with
  | Word =>
      in_range 48 57 c || in_range 65 90 c || in_range 97 122 c
      || (c =? 95)%N
  | Space =>
      in_range 9 13 c || (c =? 32)%N || (c =? 160)%N || (c =? 5760)%N
      || in_range 8192 8202 c || (c =? 8232)%N || (c =? 8233)%N
      || (c =? 8239)%N || (c =? 8287)%N || (c =? 12288)%N
      || (c =? 65279)%N
  end.

Section Matcher.
Variable icase : bool.

Definition char_match (p c : N) : bool :=
  (canonicalize icase c =? canonicalize icase p)%N.

(** The class matcher compares canonical forms; [\w] and [\s] are
    closed under [canonicalize], so membership of the canonical form
    decides it. *)
Definition class_match (k : char_class) (c : N) : bool :=
  class_mem k (canonicalize icase c).

Fixpoint nullable (r : pattern) : bool :=
  match r with
  | Fail => false
  | Eps => true
  | Chr _ => false
  | Cls _ => false
  | Seq r1 r2 => nullable r1 && nullable r2
  | Alt r1 r2 => nullable r1 || nullable r2
  | Star _ => true
  end.

(** What remains of [r] once the character [c] has been consumed. *)
Fixpoint deriv (c : N) (r : pattern) : pattern :=
  match r with
  | Fail => Fail
  | Eps => Fail
  | Chr p => if char_match p c then Eps else Fail
  | Cls k => if class_match k c then Eps else Fail
  | Seq r1 r2 =>
      if nullable r1
      then Alt (Seq (deriv c r1) r2) (deriv c r2)
      else Seq (deriv c r1) r2
  | Alt r1 r2 => Alt (deriv c r1) (deriv c r2)
  | Star r1 => Seq (deriv c r1) (Star r1)
  end.

(** Some prefix of [s] matches [r]. *)
Fixpoint match_here (s : jsstring) (r : pattern) {struct s} : bool :=
  nullable r ||
  match s with
  | [] => false
  | c :: s' => match_here s' (deriv c r)
  end.

(** Some substring of [s] matches [r]: the start index is tried from
    0 upwards, as an unanchored search does. *)
Fixpoint search (s : jsstring) (r : pattern) {struct s} : bool :=
  match_here s r ||
  match s with
  | [] => false
  | _ :: s' => search s' r
  end.

(** The strings a pattern denotes. *)
Inductive lang : pattern -> jsstring -> Prop :=
| lang_Eps : lang Eps []
| lang_Chr p c : char_match p c = true -> lang (Chr p) [c]
| lang_Cls k c : class_match k c = true -> lang (Cls k) [c]
| lang_Seq r1 r2 s1 s2 :
    lang r1 s1 -> lang r2 s2 -> lang (Seq r1 r2) (s1 ++ s2)
| lang_AltL r1 r2 s : lang r1 s -> lang (Alt r1 r2) s
| lang_AltR r1 r2 s : lang r2 s -> lang (Alt r1 r2) s
| lang_Star0 r : lang (Star r) []
| lang_StarS r s1 s2 :
    lang r s1 -> lang (Star r) s2 -> lang (Star r) (s1 ++ s2).

End Matcher.

(** [RegExp.prototype.test] of a regular expression without the [g]
    and [y] flags. *)
Definition test (re : regexp) (s : jsstring) : bool :=
  search (ignoreCase re) s (source re).

End RegExp.

(* ------------------------------------------------------------------ *)
(** ** The execution environment: server or browser *)

Module Env.

(** What a storage method or the no-op standing in for it returns. *)
Inductive value : Type :=
| VNull
| VUndefined
| VString (s : jsstring).

(** An object with the call signature of the Web Storage interface.
    [W] is the state of the world its methods may read and change. *)
Record Storage (W : Type) : Type := mkStorage {
  getItem : jsstring -> W -> completion value * W;
  setItem : jsstring -> jsstring -> W -> completion value * W;
  removeItem : jsstring -> W -> completion value * W;
  clear : W -> completion value * W
}.
Arguments mkStorage {W}.
Arguments getItem {W}.
Arguments setItem {W}.
Arguments removeItem {W}.
Arguments clear {W}.

(** [window.crypto]: the stream of values [getRandomValues] draws. *)
Record Crypto : Type := mkCrypto {
  random_values : nat -> N
}.

Record Window : Type := mkWindow {
  crypto : option Crypto
}.

(** [document]: the only use made of it is to create a [div], assign
    [textContent] and read [innerHTML] back; the browser's
    serialisation of a text node is a parameter. *)
Record Document : Type := mkDocument {
  innerHTML_of_textContent : jsstring -> jsstring
}.

(** The globals and imports the utilities probe.  A global that is not
    defined is [None]; reading it (other than through [typeof]) raises
    a ReferenceError. *)
Record env (W : Type) : Type := mkEnv {
  window : option Window;
  document : option Document;
  localStorage : option (Storage W);
  sessionStorage : option (Storage W);
  (** [DOMPurify.sanitize] of the imported module.  The module only has
      this method when it found a DOM to work with as it was loaded;
      without one the member is missing, [None], and calling it raises
      a TypeError. *)
  DOMPurify_sanitize : option (jsstring -> jsstring);
  (** [Math.random().toString(36)] of the k-th draw *)
  Math_random_toString36 : nat -> jsstring
}.
Arguments mkEnv {W}.
Arguments window {W}.
Arguments document {W}.
Arguments localStorage {W}.
Arguments sessionStorage {W}.
Arguments DOMPurify_sanitize {W}.
Arguments Math_random_toString36 {W}.

(** Reading a global by name. *)
Definition global {A : Type} (name : string) (g : option A) : completion A :=
  match g with
  | Some v => Normal v
  | None => Throw (ReferenceError name)
  end.

(** Calling a member of an imported object by name. *)
Definition call_member {A B : Type} (name : string) (m : option (A -> B))
    (x : A) : completion B :=
  match m with
  | Some f => Normal (f x)
  | None => Throw (TypeError name)
  end.

(** [typeof g === 'undefined'] *)
Definition typeof_undefined {A : Type} (g : option A) : bool :=
  match g with
  | Some _ => false
  | None => true
  end.

(** The server: none of the browser globals is defined. *)
Definition server {W : Type} (sanitize : option (jsstring -> jsstring))
    (rnd : nat -> jsstring) : env W :=
  mkEnv None None None None sanitize rnd.

End Env.
Import Env.

(* ------------------------------------------------------------------ *)
(** ** [src/lib/security.ts] *)

Module Security.
Import RegExp.

Section WithEnv.
Context {W : Type} (e : env W).

Definition sanitizeHtml (html : jsstring) : completion jsstring :=
  if typeof_undefined (window e) then
    (* Server-side: return as-is *)
    Normal html
  else call_member "DOMPurify.sanitize" (DOMPurify_sanitize e) html.

Definition escapeHtml (text : jsstring) : completion jsstring :=
  bind (global "document" (document e)) (fun doc =>
  Normal (innerHTML_of_textContent doc text)).

(** A hexadecimal digit, lower case. *)
Definition hex_digit (d : N) : N :=
  if (d <? 10)%N then (48 + d)%N else (87 + d)%N.

(** [byte.toString(16)] for a byte. *)
Definition toString16 (b : N) : jsstring :=
  if (b <? 16)%N then [hex_digit b]
  else [hex_digit (b / 16); hex_digit (b mod 16)].

(** [s.padStart(n, pad)] for a one-character [pad]. *)
Definition padStart (n : nat) (pad : N) (s : jsstring) : jsstring :=
  replicate (n - length s) pad ++ s.

(** The contents of [new Uint8Array(n)] after [getRandomValues]. *)
Definition getRandomValues (c : Crypto) (n : nat) : list N :=
  map (fun i => (random_values c i mod 256)%N) (seq 0 n).

(** [Math.random().toString(36).substring(2, 15)], twice. *)
Definition random_suffixes : jsstring :=
  substring 2 15 (Math_random_toString36 e 0%nat)
  ++ substring 2 15 (Math_random_toString36 e 1%nat).

Definition generateSecureToken : completion jsstring :=
  match window e with
  | Some w =>
      match crypto w with
      | Some c =>
          let array := getRandomValues c 32 in
          Normal (join [] (map (fun byte => padStart 2 48 (toString16 byte))
                               array))
      | None => Normal random_suffixes
      end
  | None =>
      (* Fallback for environments without crypto *)
      Normal random_suffixes
  end.

End WithEnv.

(** [/<script/i], [/javascript:/i], [/on\w+\s*=/i],
    [/data:text\/html/i] *)
Definition maliciousPatterns : list regexp :=
  [ mkRegExp (Lit (lit "<script")) true;
    mkRegExp (Lit (lit "javascript:")) true;
    mkRegExp (Seq (Lit (lit "on"))
               (Seq (Plus (Cls Word)) (Seq (Star (Cls Space)) (Chr 61))))
             true;
    mkRegExp (Lit (lit "data:text/html")) true ].

(** [input.length] as a number. *)
Definition length_of (s : jsstring) : Q := inject_Z (Z.of_nat (length s)).

(** [a > b] on numbers. *)
Definition num_gt (a b : Q) : bool := negb (Qle_bool a b).

Definition validateInput (input : jsstring) (maxLength : option Q) : bool :=
  let maxLength := default (1000 # 1) maxLength in
  (* [typeof input !== 'string'] is false for an argument of type string *)
  if negb (truthy input) || false then false
  else if num_gt (length_of input) maxLength then false
  else negb (existsb (fun pattern => test pattern input) maliciousPatterns).

End Security.

(* ------------------------------------------------------------------ *)
(** ** [src/lib/cors.ts] *)

Module Cors.

(** [string | string[] | boolean] *)
Inductive origin_spec : Type :=
| OriginBool (b : bool)
| OriginString (s : jsstring)
| OriginArray (l : list jsstring).

(** Every field is optional; an omitted field is [None]. *)
Record CorsOptions : Type := mkCorsOptions {
  origin : option origin_spec;
  methods : option (list jsstring);
  allowedHeaders : option (list jsstring);
  credentials : option bool
}.

(** [{}] *)
Definition no_options : CorsOptions := mkCorsOptions None None None None.

Definition Allow_Origin : jsstring := lit "Access-Control-Allow-Origin".
Definition Allow_Methods : jsstring := lit "Access-Control-Allow-Methods".
Definition Allow_Headers : jsstring := lit "Access-Control-Allow-Headers".
Definition Allow_Credentials : jsstring :=
  lit "Access-Control-Allow-Credentials".

(** [a || b] on a possibly undefined string. *)
Definition or_else (a : option jsstring) (b : jsstring) : jsstring :=
  match a with
  | Some s => if truthy s then s else b
  | None => b
  end.

Definition getCorsHeaders (options : option CorsOptions)
  : gmap jsstring jsstring :=
  let options := default no_options options in
  let headers : gmap jsstring jsstring := ∅ in
  (* Set origin *)
  let headers :=
    match origin options with
    | Some (OriginBool true) => <[Allow_Origin := lit "*"]> headers
    | Some (OriginString s) => <[Allow_Origin := s]> headers
    | Some (OriginArray l) =>
        <[Allow_Origin := or_else (head l) (lit "*")]> headers
    | Some (OriginBool false) | None => headers
    end in
  (* Set methods *)
  let headers :=
    match methods options with
    | Some ms => <[Allow_Methods := join (lit ", ") ms]> headers
    | None =>
        <[Allow_Methods := lit "GET, POST, PUT, DELETE, OPTIONS"]> headers
    end in
  (* Set allowed headers *)
  let headers :=
    match allowedHeaders options with
    | Some hs => <[Allow_Headers := join (lit ", ") hs]> headers
    | None =>
        <[Allow_Headers :=
            lit "Content-Type, Authorization, X-Requested-With"]> headers
    end in
  (* Set credentials *)
  let headers :=
    match credentials options with
    | Some true => <[Allow_Credentials := lit "true"]> headers
    | Some false | None => headers
    end in
  headers.

Definition isValidOrigin (origin : jsstring) (allowedOrigins : list jsstring)
  : bool :=
  if negb (truthy origin) then false
  else includes allowedOrigins origin || includes allowedOrigins (lit "*").

(** [process.env.NODE_ENV === 'development'] is the argument. *)
Definition getDefaultCorsOptions (development : bool) : CorsOptions :=
  {| origin :=
       Some (if development then OriginBool true
             else OriginArray [lit "http://localhost:3000";
                               lit "https://your-domain.com"]);
     methods := Some [lit "GET"; lit "POST"; lit "PUT"; lit "DELETE";
                      lit "OPTIONS"];
     allowedHeaders := Some [lit "Content-Type"; lit "Authorization";
                             lit "X-Requested-With"];
     credentials := Some true |}.

End Cors.

(* ------------------------------------------------------------------ *)
(** ** Content Security Policy utilities *)

Module Csp.

Definition generateNonce {W : Type} (e : env W) : jsstring :=
  substring 2 15 (Math_random_toString36 e 0%nat)
  ++ substring 2 15 (Math_random_toString36 e 1%nat).

(** The [script-src] directive: the template literal
    [`script-src 'self' 'unsafe-eval' ${nonce ? `'nonce-${nonce}'` : "'unsafe-inline'"}`];
    an omitted [nonce] is [None]. *)
Definition script_src (nonce : option jsstring) : jsstring :=
  lit "script-src 'self' 'unsafe-eval' "
  ++ match nonce with
     | Some n => if truthy n then lit "'nonce-" ++ n ++ lit "'"
                 else lit "'unsafe-inline'"
     | None => lit "'unsafe-inline'"
     end.

Definition cspDirectives (nonce : option jsstring) : list jsstring :=
  [ lit "default-src 'self'";
    script_src nonce;
    lit "style-src 'self' 'unsafe-inline'";
    lit "img-src 'self' data: blob:";
    lit "font-src 'self'";
    lit "connect-src 'self' ws: wss:";
    lit "frame-ancestors 'none'";
    lit "base-uri 'self'";
    lit "form-action 'self'" ].

Definition getCSPHeader (nonce : option jsstring) : jsstring :=
  join (lit "; ") (cspDirectives nonce).

End Csp.

(* ------------------------------------------------------------------ *)
(** ** [src/lib/ssr-utils.ts] *)

Module Ssr.

Section WithEnv.
Context {W : Type} (e : env W).

Definition isServer : bool := typeof_undefined (window e).

Definition isClient : bool := negb (typeof_undefined (window e)).

(** [{ getItem: () => null, setItem: () => {}, removeItem: () => {},
      clear: () => {} }] *)
Definition noop_storage : Storage W :=
  {| getItem := fun _ w => (Normal VNull, w);
     setItem := fun _ _ w => (Normal VUndefined, w);
     removeItem := fun _ w => (Normal VUndefined, w);
     clear := fun w => (Normal VUndefined, w) |}.

Definition safeLocalStorage : completion (Storage W) :=
  if isServer then Normal noop_storage
  else global "localStorage" (localStorage e).

Definition safeSessionStorage : completion (Storage W) :=
  if isServer then Normal noop_storage
  else global "sessionStorage" (sessionStorage e).

(** [null] is [None]. *)
Definition safeDocument : completion (option Document) :=
  if isServer then Normal None
  else bind (global "document" (document e)) (fun d => Normal (Some d)).

Definition safeWindow : completion (option Window) :=
  if isServer then Normal None
  else bind (global "window" (window e)) (fun w => Normal (Some w)).

End WithEnv.

(** A client of a storage object: one method call. *)
Inductive call : Type :=
| GetItem (key : jsstring)
| SetItem (key value : jsstring)
| RemoveItem (key : jsstring)
| Clear.

Definition perform {W : Type} (st : Storage W) (c : call) (w : W)
  : completion value * W :=
  match c with
  | GetItem k => getItem st k w
  | SetItem k v => setItem st k v w
  | RemoveItem k => removeItem st k w
  | Clear => clear st w
  end.

(** A sequence of calls, one after the other; the first call that
    raises ends the run.  The answers of the calls and the final world
    are returned. *)
Fixpoint run {W : Type} (st : Storage W) (cs : list call) (w : W)
  : completion (list value) * W :=
  match cs with
  | [] => (Normal [], w)
  | c :: cs' =>
      match perform st c w with
      | (Normal v, w') =>
          match run st cs' w' with
          | (Normal vs, w'') => (Normal (v :: vs), w'')
          | (Throw err, w'') => (Throw err, w'')
          end
      | (Throw err, w') => (Throw err, w')
      end
  end.

End Ssr.

(* ------------------------------------------------------------------ *)
(** ** Numbers: binary64 values and their arithmetic *)

Module Number.

(** A Number value.  [Fin q] is the finite value [q]; the operations
    below only ever build it from a double, and take any rational as an
    operand. *)
Inductive num : Type :=
| NaN
| PInf
| NInf
| Fin (q : Q).

(** The smallest positive double is 2^-1074; every finite double is a
    whole number of such units. *)
Definition unit_exponent : Z := 1074.

(** Overflow: 2^1024, in units. *)
Definition overflow_units : Z := 2 ^ 2098.

(** [N / D] rounded to the nearest integer, ties to the even one. *)
Definition div_nearest_even (N D : Z) : Z :=
  let fl := (N / D)%Z in
  match (2 * (N mod D) ?= D)%Z with
  | Lt => fl
  | Gt => (fl + 1)%Z
  | Eq => if Z.even fl then fl else (fl + 1)%Z
  end.

(** The number of bits a quotient [N / D] of positive integers has
    beyond the 53 of a significand: [floor (log2 (N / D)) - 52], or 0
    when that is negative. *)
Definition excess_bits (N D : Z) : Z :=
  let e0 := (Z.log2 N - Z.log2 D)%Z in
  let e := if (2 ^ e0 * D <=? N)%Z then e0 else (e0 - 1)%Z in
  Z.max (e - 52) 0.

(** A positive rational [n / d] rounded to binary64, in units: the
    quotient is cut to 53 significant bits, or to a whole number of
    units where it is subnormal, rounding to nearest, ties to even. *)
Definition round_units (n d : Z) : Z :=
  let N := (n * 2 ^ unit_exponent)%Z in
  let t := excess_bits N d in
  (div_nearest_even N (d * 2 ^ t) * 2 ^ t)%Z.

(** The rational a number of units is, in lowest terms. *)
Definition of_units (w : Z) : Q := Qred (w # Z.to_pos (2 ^ unit_exponent)).

(** The double nearest to a rational; an infinity on overflow. *)
Definition round64 (q : Q) : num :=
  match Qnum q with
  | Z0 => Fin 0
  | Zpos n =>
      let w := round_units (Zpos n) (Zpos (Qden q)) in
      if (overflow_units <=? w)%Z then PInf else Fin (of_units w)
  | Zneg n =>
      let w := round_units (Zpos n) (Zpos (Qden q)) in
      if (overflow_units <=? w)%Z then NInf else Fin (- of_units w)
  end.

Definition sign (x : num) : comparison :=
  match x with
  | NaN => Eq
  | PInf => Gt
  | NInf => Lt
  | Fin q => (q ?= 0)%Q
  end.

(** [x * y]: NaN if an operand is NaN or for zero times an infinity. *)
Definition mul (x y : num) : num :=
  match x, y with
  | NaN, _ | _, NaN => NaN
  | Fin a, Fin b => round64 (a * b)
  | _, _ =>
      match sign x, sign y with
      | Eq, _ | _, Eq => NaN
      | Gt, Gt | Lt, Lt => PInf
      | Gt, Lt | Lt, Gt => NInf
      end
  end.

(** [x + y]: NaN if an operand is NaN or for opposite infinities. *)
Definition add (x y : num) : num :=
  match x, y with
  | NaN, _ | _, NaN => NaN
  | PInf, NInf | NInf, PInf => NaN
  | PInf, _ | _, PInf => PInf
  | NInf, _ | _, NInf => NInf
  | Fin a, Fin b => round64 (a + b)
  end.

(** [Math.min(x, y)]: NaN if an argument is NaN. *)
Definition min (x y : num) : num :=
  match x, y with
  | NaN, _ | _, NaN => NaN
  | NInf, _ | _, NInf => NInf
  | PInf, z | z, PInf => z
  | Fin a, Fin b => if Qle_bool a b then Fin a else Fin b
  end.

(** [x <= y]: false if an operand is NaN. *)
Definition leb (x y : num) : bool :=
  match x, y with
  | NaN, _ | _, NaN => false
  | NInf, _ | _, PInf => true
  | PInf, _ | _, NInf => false
  | Fin a, Fin b => Qle_bool a b
  end.

(** The same value; NaN counted as equal to NaN. *)
Definition eqb (x y : num) : bool :=
  match x, y with
  | NaN, NaN => true
  | PInf, PInf => true
  | NInf, NInf => true
  | Fin a, Fin b => Qeq_bool a b
  | _, _ => false
  end.

(** The value of a primitive binary64 float, to set the arithmetic above
    against the one built into the proof assistant. *)
Definition of_float (f : float) : num :=
  match Prim2SF f with
  | S754_zero _ => Fin 0
  | S754_infinity false => PInf
  | S754_infinity true => NInf
  | S754_nan => NaN
  | S754_finite s m e =>
      let v := if (0 <=? e)%Z then inject_Z (Zpos m * 2 ^ e)
               else (Zpos m # Z.to_pos (2 ^ (- e))) in
      Fin (if s then - v else v)
  end.

End Number.

(* ------------------------------------------------------------------ *)
(** ** Reconnect back-off of the error handling guide *)

Module Backoff.
Import Number.

(** [Math.pow(2, n)] for an integer [n], as every engine returns it: the
    exact power, infinity past the largest exponent, zero below the
    smallest. *)
Definition exact_pow2 (n : Z) : num :=
  if (1023 <? n)%Z then PInf
  else if (n <? -1074)%Z then Fin 0
  else if (0 <=? n)%Z then Fin (inject_Z (2 ^ n))
  else Fin (1 # Z.to_pos (2 ^ (- n))).

(** A [Math.pow] to run the function with: [exact_pow2] for base 2 and
    an integer exponent.  Other arguments are not modelled (NaN); no
    example calls it there. *)
Definition pow_of_two (base exponent : num) : num :=
  match base, exponent with
  | Fin b, Fin x =>
      if Qeq_bool b 2 && (Zpos (Qden (Qred x)) =? 1)%Z
      then exact_pow2 (Qnum (Qred x))
      else NaN
  | _, _ => NaN
  end.

(** [30000], "30 seconds max" *)
Definition maxDelay : num := Fin 30000.

Section Engine.
(** [Math.pow] of the engine.  For exponents that are not integers its
    result is only an approximation the engine chooses, so it is a
    parameter: what is proved of the function holds for every engine. *)
Variable Math_pow : num -> num -> num.

(** [const delay = Math.min(baseDelay * Math.pow(2, attempt), maxDelay)] *)
Definition delay (attempt baseDelay : num) : num :=
  min (mul baseDelay (Math_pow (Fin 2) attempt)) maxDelay.

(** [random] is the value [Math.random()] returns, in [0, 1); an omitted
    [baseDelay] is [None]. *)
Definition calculateBackoffDelay (attempt : num) (baseDelay : option num)
    (random : num) : num :=
  let baseDelay := default (Fin 1000) baseDelay in
  add (delay attempt baseDelay) (mul random (Fin 1000)).

End Engine.
End Backoff.

(* ------------------------------------------------------------------ *)
(** ** Vocabulary of the statements *)

Module Words.

(** ASCII lower-casing of one code unit. *)
Definition ascii_lower (c : N) : N :=
  if RegExp.in_range 65 90 c then (c + 32)%N else c.

(** [s], written in lower case, occurs in [t] in some letter case. *)
Definition occurs_in_any_case (s t : jsstring) : Prop :=
  exists mid, map ascii_lower mid = s /\ occurs_in mid t.

(** What a call answers when it does nothing: [null] for a read,
    [undefined] for the rest. *)
Definition inert_answer (c : Ssr.call) : value :=
  match c with
  | Ssr.GetItem _ => VNull
  | Ssr.SetItem _ _ | Ssr.RemoveItem _ | Ssr.Clear => VUndefined
  end.

(** A lower-case hexadecimal digit. *)
Definition is_hex_digit (c : N) : bool :=
  RegExp.in_range 48 57 c || RegExp.in_range 97 102 c.

(** Every string a case-insensitive pattern denotes holds a character
    whose canonical form is [ch]. *)
Fixpoint needs (ch : N) (r : RegExp.pattern) : bool :=
  match r with
  | RegExp.Fail => true
  | RegExp.Eps => false
  | RegExp.Chr p => (RegExp.canonicalize true p =? ch)%N
  | RegExp.Cls _ => false
  | RegExp.Seq r1 r2 => needs ch r1 || needs ch r2
  | RegExp.Alt r1 r2 => needs ch r1 && needs ch r2
  | RegExp.Star _ => false
  end.

(** The shape of an inline event handler attribute: [on] in some letter
    case, one or more word characters, any white space, an equals sign. *)
Definition event_handler_shape (mid : jsstring) : Prop :=
  exists on_kw name spaces,
    mid = on_kw ++ name ++ spaces ++ lit "=" /\
    map ascii_lower on_kw = lit "on" /\
    name <> [] /\
    Forall (fun c => RegExp.class_mem RegExp.Word c = true) name /\
    Forall (fun c => RegExp.class_mem RegExp.Space c = true) spaces.

End Words.
Import Words.

(* ================================================================== *)
(** * Properties *)

(** ** The matcher decides the language of a pattern *)

Section MatcherFacts.
Import RegExp.
Variable icase : bool.

Local Abbreviation lang := (RegExp.lang icase).
Local Abbreviation deriv := (RegExp.deriv icase).

Lemma nullable_lang r : nullable r = true <-> lang r [].
Proof.
  split.
  - induction r as [| | |k|r1 IH1 r2 IH2|r1 IH1 r2 IH2|r]; simpl;
      intros Hn; try discriminate.
    + constructor.
    + apply andb_true_iff in Hn as [H1 H2].
      change (@nil N) with (@nil N ++ []). constructor; auto.
    + apply orb_true_iff in Hn as [H|H];
        [apply lang_AltL | apply lang_AltR]; auto.
    + constructor.
  - intros H. remember [] as s eqn:Hs.
    induction H as [|p c Hc|k c Hc|r1 r2 s1 s2 H1 IH1 H2 IH2
                    |r1 r2 s H IH|r1 r2 s H IH|r|r s1 s2 H1 IH1 H2 IH2];
      simpl; try discriminate; auto.
    + apply app_eq_nil in Hs as [-> ->]. rewrite IH1, IH2; auto.
    + rewrite IH; auto.
    + rewrite IH; auto. apply orb_true_r.
Qed.

Lemma deriv_sound c r : forall s, lang (deriv c r) s -> lang r (c :: s).
Proof.
  induction r as [| |p|k|r1 IH1 r2 IH2|r1 IH1 r2 IH2|r IH]; simpl; intros s H.
  - inversion H.
  - inversion H.
  - destruct (char_match icase p c) eqn:E; inversion H; subst.
    now constructor.
  - destruct (class_match icase k c) eqn:E; inversion H; subst.
    now constructor.
  - destruct (RegExp.nullable r1) eqn:E.
    + inversion H as [| | | |? ? ? H'|? ? ? H'| |]; subst.
      * inversion H' as [| | |? ? s1 s2 Ha Hb| | | |]; subst.
        change (c :: s1 ++ s2) with ((c :: s1) ++ s2).
        constructor; auto.
      * change (c :: s) with ([] ++ c :: s).
        constructor; auto. now apply nullable_lang.
    + inversion H as [| | |? ? s1 s2 Ha Hb| | | |]; subst.
      change (c :: s1 ++ s2) with ((c :: s1) ++ s2).
      constructor; auto.
  - inversion H; subst; [apply lang_AltL | apply lang_AltR]; auto.
  - inversion H as [| | |? ? s1 s2 Ha Hb| | | |]; subst.
    change (c :: s1 ++ s2) with ((c :: s1) ++ s2).
    apply lang_StarS; auto.
Qed.

Lemma deriv_complete c r s : lang r (c :: s) -> lang (deriv c r) s.
Proof.
  intros H. remember (c :: s) as cs eqn:Hcs. revert s Hcs.
  induction H as [|p d Hd|k d Hd|r1 r2 s1 s2 H1 IH1 H2 IH2
                  |r1 r2 t H IH|r1 r2 t H IH|r|r s1 s2 H1 IH1 H2 IH2];
    intros s Hcs; simpl.
  - discriminate.
  - injection Hcs as -> <-. rewrite Hd. constructor.
  - injection Hcs as -> <-. rewrite Hd. constructor.
  - destruct s1 as [|d s1']; simpl in Hcs.
    + subst s2. apply nullable_lang in H1. rewrite H1.
      apply lang_AltR. now apply IH2.
    + injection Hcs as -> <-.
      assert (Hs : lang (Seq (deriv c r1) r2) (s1' ++ s2))
        by (constructor; auto).
      destruct (RegExp.nullable r1); [now apply lang_AltL | exact Hs].
  - apply lang_AltL. now apply IH.
  - apply lang_AltR. now apply IH.
  - discriminate.
  - destruct s1 as [|d s1']; simpl in Hcs.
    + now apply IH2.
    + injection Hcs as -> <-. constructor; auto.
Qed.

(** [match_here] finds exactly the prefixes in the language. *)
Lemma match_here_spec s : forall r,
  match_here icase s r = true <->
  exists s1 s2, s = s1 ++ s2 /\ lang r s1.
Proof.
  induction s as [|c s IH]; intros r; simpl.
  - rewrite orb_false_r. rewrite nullable_lang. split.
    + intros H. now exists [], [].
    + intros (s1 & s2 & Hs & H). symmetry in Hs.
      apply app_eq_nil in Hs as [-> _]. exact H.
  - rewrite orb_true_iff, IH, nullable_lang. split.
    + intros [H | (s1 & s2 & -> & H)].
      * now exists [], (c :: s).
      * exists (c :: s1), s2. split; [reflexivity|]. now apply deriv_sound.
    + intros (s1 & s2 & Hs & H). destruct s1 as [|d s1].
      * now left.
      * simpl in Hs. injection Hs as <- ->. right.
        exists s1, s2. split; [reflexivity|]. now apply deriv_complete.
Qed.

(** [search] finds exactly the substrings in the language. *)
Lemma search_spec s : forall r,
  search icase s r = true <->
  exists pre mid post, s = pre ++ mid ++ post /\ lang r mid.
Proof.
  induction s as [|c s IH]; intros r; simpl.
  - rewrite orb_false_r. rewrite (match_here_spec [] r). split.
    + intros (s1 & s2 & Hs & H). now exists [], s1, s2.
    + intros (pre & mid & post & Hs & H). symmetry in Hs.
      apply app_eq_nil in Hs as [-> Hs].
      apply app_eq_nil in Hs as [-> ->]. now exists [], [].
  - rewrite orb_true_iff, IH.
    change (RegExp.nullable r || match_here icase s (deriv c r))
      with (match_here icase (c :: s) r).
    rewrite match_here_spec. split.
    + intros [(s1 & s2 & Hs & H) | (pre & mid & post & -> & H)].
      * now exists [], s1, s2.
      * now exists (c :: pre), mid, post.
    + intros (pre & mid & post & Hs & H). destruct pre as [|d pre].
      * left. now exists mid, post.
      * simpl in Hs. injection Hs as <- ->. right. now exists pre, mid, post.
Qed.

(** A literal pattern denotes the strings that agree with it character
    by character. *)
Lemma lang_Lit p : forall s,
  lang (Lit p) s <-> Forall2 (fun a b => char_match icase a b = true) p s.
Proof.
  induction p as [|a p IH]; intros s.
  - simpl. split; intros H; inversion H; constructor.
  - destruct p as [|b p].
    + simpl. split; intros H.
      * inversion H; subst. repeat constructor; auto.
      * inversion H as [|? ? ? ? Ha Hr]; subst. inversion Hr; subst.
        now constructor.
    + change (Lit (a :: b :: p)) with (Seq (Chr a) (Lit (b :: p))).
      split; intros H.
      * inversion H as [| | |? ? s1 s2 Ha Hb| | | |]; subst.
        inversion Ha; subst. simpl. constructor; auto. now apply IH.
      * inversion H as [|? c ? t Ha Hr]; subst.
        change (c :: t) with ([c] ++ t). constructor.
        -- now constructor.
        -- now apply IH.
Qed.

End MatcherFacts.

(* ------------------------------------------------------------------ *)
(** ** [validateInput] *)

Section ValidateInput.
Import RegExp Security.

Lemma canonicalize_ascii_lower c :
  canonicalize true (ascii_lower c) = canonicalize true c.
Proof.
  unfold canonicalize, ascii_lower, in_range; simpl.
  destruct (N.leb_spec 65 c), (N.leb_spec c 90); simpl;
    destruct (N.leb_spec 97 c), (N.leb_spec c 122); simpl;
    repeat match goal with
           | |- context [(?a <=? ?b)%N] => destruct (N.leb_spec a b); simpl
           end; lia.
Qed.

Lemma lowered_agrees mid :
  Forall2 (fun a b => char_match true a b = true) (map ascii_lower mid) mid.
Proof.
  induction mid as [|c mid IH]; simpl; constructor; auto.
  unfold char_match. rewrite canonicalize_ascii_lower. apply N.eqb_refl.
Qed.

(** A case-insensitive literal is found wherever it occurs in some
    letter case. *)
Lemma test_literal_any_case p input :
  occurs_in_any_case p input -> test (mkRegExp (Lit p) true) input = true.
Proof.
  intros (mid & <- & pre & post & ->). unfold test; simpl.
  apply search_spec. exists pre, mid, post. split; [reflexivity|].
  apply lang_Lit, lowered_agrees.
Qed.

Lemma num_gt_true a b : (b < a)%Q -> num_gt a b = true.
Proof.
  intros H. unfold num_gt. destruct (Qle_bool a b) eqn:E; [|reflexivity].
  apply Qle_bool_iff in E. exfalso. exact (Qlt_not_le _ _ H E).
Qed.

(** C1. [validateInput] returns [false] for every input in which
    [<script] occurs in some letter case, for every input longer than
    [maxLength] (1000 when omitted), and for the empty string. *)
Theorem C1_validateInput_rejects (input : jsstring) (maxLength : option Q) :
  (occurs_in_any_case (lit "<script") input ->
     validateInput input maxLength = false) /\
  ((default (1000 # 1) maxLength < length_of input)%Q ->
     validateInput input maxLength = false) /\
  validateInput [] maxLength = false.
Proof.
  split; [|split].
  - intros H. unfold validateInput.
    destruct (negb (truthy input) || false); [reflexivity|].
    destruct (num_gt _ _); [reflexivity|].
    unfold maliciousPatterns. cbn [existsb].
    rewrite (test_literal_any_case _ _ H). reflexivity.
  - intros H. unfold validateInput.
    destruct (negb (truthy input) || false); [reflexivity|].
    now rewrite (num_gt_true _ _ H).
  - reflexivity.
Qed.

Lemma C1_validateInput_rejects_witness :
  validateInput (lit "say <ScRiPt>alert(1)") None = false /\
  validateInput (lit "abcd") (Some (3 # 1)) = false /\
  validateInput [] (Some (3 # 1)) = false.
Proof.
  split; [|split].
  - apply (proj1 (C1_validateInput_rejects (lit "say <ScRiPt>alert(1)") None)).
    exists (lit "<ScRiPt"). split; [reflexivity|].
    exists (lit "say "), (lit ">alert(1)"). reflexivity.
  - apply (proj1 (proj2 (C1_validateInput_rejects (lit "abcd") (Some (3 # 1))))).
    reflexivity.
  - apply (proj2 (proj2 (C1_validateInput_rejects [] (Some (3 # 1))))).
Defined.

End ValidateInput.

(* ------------------------------------------------------------------ *)
(** ** Rounding to binary64 *)

Section RoundingFacts.
Import Number.
Local Open Scope Z_scope.

Lemma div_nearest_even_le (N D M : Z) :
  0 < D -> N <= M * D -> div_nearest_even N D <= M.
Proof.
  intros HD HN. unfold div_nearest_even.
  pose proof (Z.div_mod N D ltac:(lia)) as E.
  pose proof (Z.mod_pos_bound N D HD) as B.
  set (fl := N / D) in *. set (r := N mod D) in *.
  assert (fl <= M) by nia.
  destruct (Z.compare_spec (2 * r) D); [destruct (Z.even fl)|..]; nia.
Qed.

Lemma div_nearest_even_ge (N D M : Z) :
  0 < D -> M * D <= N -> M <= div_nearest_even N D.
Proof.
  intros HD HN. unfold div_nearest_even.
  pose proof (Z.div_mod N D ltac:(lia)) as E.
  pose proof (Z.mod_pos_bound N D HD) as B.
  set (fl := N / D) in *. set (r := N mod D) in *.
  assert (M <= fl) by nia.
  destruct (Z.compare_spec (2 * r) D); [destruct (Z.even fl)|..]; lia.
Qed.

Lemma div_nearest_even_exact (M D : Z) :
  0 < D -> div_nearest_even (M * D) D = M.
Proof.
  intros HD. unfold div_nearest_even.
  rewrite Z.div_mul, Z.mod_mul by lia.
  destruct (Z.compare_spec (2 * 0) D); [lia|reflexivity|lia].
Qed.

(** Rounding to the nearest integer keeps the order of the quotients. *)
Lemma div_nearest_even_mono (N1 D1 N2 D2 : Z) :
  0 < D1 -> 0 < D2 -> N1 * D2 <= N2 * D1 ->
  div_nearest_even N1 D1 <= div_nearest_even N2 D2.
Proof.
  intros H1 H2 H. unfold div_nearest_even.
  pose proof (Z.div_mod N1 D1 ltac:(lia)) as E1.
  pose proof (Z.mod_pos_bound N1 D1 H1) as B1.
  pose proof (Z.div_mod N2 D2 ltac:(lia)) as E2.
  pose proof (Z.mod_pos_bound N2 D2 H2) as B2.
  set (f1 := N1 / D1) in *. set (r1 := N1 mod D1) in *.
  set (f2 := N2 / D2) in *. set (r2 := N2 mod D2) in *.
  assert (Hp : 0 < D1 * D2) by nia.
  assert (X1 : N1 * D2 = D1 * D2 * f1 + r1 * D2) by (rewrite E1; ring).
  assert (X2 : N2 * D1 = D1 * D2 * f2 + r2 * D1) by (rewrite E2; ring).
  assert (Y1 : 0 <= r1 * D2) by nia.
  assert (Y2 : r2 * D1 < D1 * D2) by nia.
  assert (Hf : f1 <= f2) by nia.
  destruct (Z.eq_dec f1 f2) as [Ef|Nf].
  - assert (Hr : r1 * D2 <= r2 * D1) by (rewrite Ef in X1; lia).
    rewrite Ef.
    destruct (Z.compare_spec (2 * r1) D1) as [C1|C1|C1];
      destruct (Z.compare_spec (2 * r2) D2) as [C2|C2|C2];
      destruct (Z.even f2); try lia; exfalso; nia.
  - destruct (Z.compare_spec (2 * r1) D1); destruct (Z.compare_spec (2 * r2) D2);
      destruct (Z.even f1); destruct (Z.even f2); lia.
Qed.

Lemma excess_bits_nonneg (N D : Z) : 0 <= excess_bits N D.
Proof. unfold excess_bits. lia. Qed.

(** The quotient has fewer than [53 + excess_bits] bits ... *)
Lemma excess_bits_upper (N D : Z) :
  0 < N -> 0 < D -> N < 2 ^ (excess_bits N D + 53) * D.
Proof.
  intros HN HD. unfold excess_bits.
  pose proof (Z.log2_spec N HN) as [_ LN].
  pose proof (Z.log2_spec D HD) as [LD _].
  pose proof (Z.log2_nonneg N). pose proof (Z.log2_nonneg D).
  set (e0 := Z.log2 N - Z.log2 D).
  destruct (Z.leb_spec (2 ^ e0 * D) N) as [Ht|Ht].
  - set (t := Z.max (e0 - 52) 0).
    set (j := Z.max (e0 + 1) 0).
    assert (E : 2 ^ (j + Z.log2 D) = 2 ^ j * 2 ^ Z.log2 D)
      by (apply Z.pow_add_r; lia).
    assert (2 ^ Z.succ (Z.log2 N) <= 2 ^ (j + Z.log2 D))
      by (apply Z.pow_le_mono_r; lia).
    assert (2 ^ j <= 2 ^ (t + 53)) by (apply Z.pow_le_mono_r; lia).
    assert (0 < 2 ^ j) by (apply Z.pow_pos_nonneg; lia).
    nia.
  - assert (0 <= e0).
    { destruct (Z.lt_ge_cases e0 0) as [Hneg|]; [|assumption].
      rewrite (Z.pow_neg_r 2 e0 Hneg) in Ht. lia. }
    set (t := Z.max (e0 - 1 - 52) 0).
    assert (2 ^ e0 <= 2 ^ (t + 53)) by (apply Z.pow_le_mono_r; lia).
    nia.
Qed.

(** ... and, when there is an excess, no fewer. *)
Lemma excess_bits_lower (N D : Z) :
  0 < N -> 0 < D -> 0 < excess_bits N D ->
  2 ^ (excess_bits N D + 52) * D <= N.
Proof.
  intros HN HD. unfold excess_bits.
  pose proof (Z.log2_spec N HN) as [LN _].
  pose proof (Z.log2_spec D HD) as [_ LD].
  pose proof (Z.log2_nonneg N). pose proof (Z.log2_nonneg D).
  set (e0 := Z.log2 N - Z.log2 D).
  destruct (Z.leb_spec (2 ^ e0 * D) N) as [Ht|Ht]; intros Hpos.
  - replace (Z.max (e0 - 52) 0 + 52) with e0 by lia. exact Ht.
  - replace (Z.max (e0 - 1 - 52) 0 + 52) with (e0 - 1) by lia.
    assert (E : 2 ^ Z.log2 N = 2 ^ (e0 - 1) * 2 ^ Z.succ (Z.log2 D)).
    { rewrite <- Z.pow_add_r by lia. f_equal. unfold e0. lia. }
    assert (0 < 2 ^ (e0 - 1)) by (apply Z.pow_pos_nonneg; lia).
    nia.
Qed.

Lemma unit_pos : 0 < 2 ^ unit_exponent.
Proof. now apply Z.pow_pos_nonneg. Qed.

(** Rounding keeps the order of positive rationals. *)
Lemma round_units_mono (n1 d1 n2 d2 : Z) :
  0 < n1 -> 0 < d1 -> 0 < n2 -> 0 < d2 -> n1 * d2 <= n2 * d1 ->
  round_units n1 d1 <= round_units n2 d2.
Proof.
  intros Hn1 Hd1 Hn2 Hd2 H. unfold round_units.
  pose proof unit_pos as HU. set (U := 2 ^ unit_exponent) in *.
  assert (HN1 : 0 < n1 * U) by nia. assert (HN2 : 0 < n2 * U) by nia.
  pose proof (excess_bits_nonneg (n1 * U) d1) as P1.
  pose proof (excess_bits_nonneg (n2 * U) d2) as P2.
  pose proof (excess_bits_upper (n1 * U) d1 HN1 Hd1) as U1.
  pose proof (excess_bits_upper (n2 * U) d2 HN2 Hd2) as U2.
  pose proof (excess_bits_lower (n1 * U) d1 HN1 Hd1) as L1.
  pose proof (excess_bits_lower (n2 * U) d2 HN2 Hd2) as L2.
  set (t1 := excess_bits (n1 * U) d1) in *.
  set (t2 := excess_bits (n2 * U) d2) in *.
  assert (HNN : n1 * U * d2 <= n2 * U * d1) by nia.
  assert (Ht : t1 <= t2).
  { destruct (Z.le_gt_cases t1 t2) as [|Hgt]; [assumption|exfalso].
    specialize (L1 ltac:(lia)).
    assert (2 ^ (t2 + 53) <= 2 ^ (t1 + 52)) by (apply Z.pow_le_mono_r; lia).
    assert (0 < 2 ^ (t2 + 53)) by (apply Z.pow_pos_nonneg; lia).
    set (A := 2 ^ (t1 + 52)) in *. set (B := 2 ^ (t2 + 53)) in *.
    assert (A * d1 * d2 <= n1 * U * d2) by nia.
    assert (n2 * U * d1 < B * d2 * d1) by nia.
    nia. }
  assert (Q1 : 0 < 2 ^ t1) by (apply Z.pow_pos_nonneg; lia).
  assert (Q2 : 0 < 2 ^ t2) by (apply Z.pow_pos_nonneg; lia).
  destruct (Z.eq_dec t1 t2) as [Et|Nt].
  - rewrite Et in *.
    apply Z.mul_le_mono_nonneg_r; [lia|].
    apply div_nearest_even_mono; nia.
  - specialize (L2 ltac:(lia)).
    rewrite Z.pow_add_r in U1, L2 by lia.
    assert (M1 : div_nearest_even (n1 * U) (d1 * 2 ^ t1) <= 2 ^ 53)
      by (apply div_nearest_even_le; nia).
    assert (M2 : 2 ^ 52 <= div_nearest_even (n2 * U) (d2 * 2 ^ t2))
      by (apply div_nearest_even_ge; nia).
    assert (E : 2 ^ t2 = 2 ^ (t2 - t1 - 1) * 2 * 2 ^ t1).
    { replace t2 with ((t2 - t1 - 1) + 1 + t1) at 1 by lia.
      rewrite !Z.pow_add_r by lia. reflexivity. }
    assert (0 < 2 ^ (t2 - t1 - 1)) by (apply Z.pow_pos_nonneg; lia).
    set (m1 := div_nearest_even (n1 * U) (d1 * 2 ^ t1)) in *.
    set (m2 := div_nearest_even (n2 * U) (d2 * 2 ^ t2)) in *.
    rewrite E.
    assert (m1 * 2 ^ t1 <= 2 ^ 53 * 2 ^ t1) by nia.
    assert (2 ^ 53 = 2 ^ 52 * 2) by reflexivity.
    nia.
Qed.

(** Integers below 2^53 are doubles: rounding leaves them alone. *)
Lemma round_units_exact (c : Z) :
  0 < c < 2 ^ 53 -> round_units c 1 = c * 2 ^ unit_exponent.
Proof.
  intros Hc. unfold round_units.
  pose proof unit_pos as HU.
  assert (HN : 0 < c * 2 ^ unit_exponent) by nia.
  pose proof (excess_bits_nonneg (c * 2 ^ unit_exponent) 1) as P.
  pose proof (excess_bits_lower (c * 2 ^ unit_exponent) 1 HN ltac:(lia)) as L.
  set (t := excess_bits (c * 2 ^ unit_exponent) 1) in *.
  assert (Ht : t <= unit_exponent).
  { destruct (Z.le_gt_cases t unit_exponent) as [|Hgt]; [assumption|exfalso].
    specialize (L ltac:(unfold unit_exponent in *; lia)).
    assert (2 ^ (unit_exponent + 53) <= 2 ^ (t + 52))
      by (apply Z.pow_le_mono_r; unfold unit_exponent in *; lia).
    rewrite Z.pow_add_r in H by (unfold unit_exponent; lia).
    nia. }
  assert (E : 2 ^ unit_exponent = 2 ^ (unit_exponent - t) * 2 ^ t).
  { rewrite <- Z.pow_add_r by lia. f_equal. lia. }
  assert (0 < 2 ^ t) by (apply Z.pow_pos_nonneg; lia).
  rewrite E at 1. rewrite Z.mul_1_l, Z.mul_assoc.
  rewrite div_nearest_even_exact by assumption.
  rewrite E. ring.
Qed.

Lemma round_units_nonneg (n d : Z) : 0 < n -> 0 < d -> 0 <= round_units n d.
Proof.
  intros Hn Hd. unfold round_units. pose proof unit_pos.
  pose proof (excess_bits_nonneg (n * 2 ^ unit_exponent) d).
  set (t := excess_bits _ _) in *.
  assert (0 < 2 ^ t) by (apply Z.pow_pos_nonneg; lia).
  assert (0 <= div_nearest_even (n * 2 ^ unit_exponent) (d * 2 ^ t))
    by (apply div_nearest_even_ge; nia).
  nia.
Qed.

End RoundingFacts.

Section Round64Facts.
Import Number.

Lemma of_units_le (w1 w2 : Z) :
  (w1 <= w2)%Z -> (of_units w1 <= of_units w2)%Q.
Proof.
  intros H. unfold of_units. rewrite !Qred_correct.
  unfold Qle. cbn [Qnum Qden]. nia.
Qed.

Lemma of_units_int (c : Z) :
  (of_units (c * 2 ^ unit_exponent) == inject_Z c)%Q.
Proof.
  unfold of_units. rewrite Qred_correct. unfold Qeq, inject_Z.
  cbn [Qnum Qden]. rewrite Z2Pos.id by apply unit_pos. ring.
Qed.

Lemma round64_not_NaN (q : Q) : round64 q <> NaN.
Proof.
  unfold round64. destruct (Qnum q); [discriminate|..];
    cbv zeta; destruct (_ <=? _)%Z; discriminate.
Qed.

(** Rounding keeps the order of the rationals. *)
Lemma round64_mono (x y : Q) :
  (x <= y)%Q -> leb (round64 x) (round64 y) = true.
Proof.
  destruct x as [n1 d1], y as [n2 d2]. unfold Qle; simpl. intros H.
  unfold round64; simpl Qnum; simpl Qden. cbv zeta.
  destruct n1 as [|p1|p1], n2 as [|p2|p2]; try lia.
  - reflexivity.
  - destruct (_ <=? _)%Z; [reflexivity|]. simpl. apply Qle_bool_iff.
    change 0%Q with (of_units 0).
    apply of_units_le, round_units_nonneg; lia.
  - pose proof (round_units_mono (Zpos p1) (Zpos d1) (Zpos p2) (Zpos d2)
                  ltac:(lia) ltac:(lia) ltac:(lia) ltac:(lia) H) as M.
    destruct (Z.leb_spec overflow_units (round_units (Zpos p1) (Zpos d1)));
      destruct (Z.leb_spec overflow_units (round_units (Zpos p2) (Zpos d2)));
      try reflexivity; try lia.
    simpl. apply Qle_bool_iff. now apply of_units_le.
  - destruct (_ <=? _)%Z; [reflexivity|]. simpl. apply Qle_bool_iff.
    change 0%Q with (- of_units 0)%Q.
    apply Qopp_le_compat, of_units_le, round_units_nonneg; lia.
  - assert (N : (0 <= of_units (round_units (Zpos p1) (Zpos d1)))%Q).
    { change 0%Q with (of_units 0).
      apply of_units_le, round_units_nonneg; lia. }
    assert (P : (0 <= of_units (round_units (Zpos p2) (Zpos d2)))%Q).
    { change 0%Q with (of_units 0).
      apply of_units_le, round_units_nonneg; lia. }
    destruct (_ <=? _)%Z, (_ <=? _)%Z; try reflexivity.
    simpl. apply Qle_bool_iff.
    apply Qle_trans with 0%Q; [|exact P].
    change 0%Q with (- 0)%Q. now apply Qopp_le_compat.
  - pose proof (round_units_mono (Zpos p2) (Zpos d2) (Zpos p1) (Zpos d1)
                  ltac:(lia) ltac:(lia) ltac:(lia) ltac:(lia) ltac:(lia)) as M.
    destruct (Z.leb_spec overflow_units (round_units (Zpos p1) (Zpos d1)));
      destruct (Z.leb_spec overflow_units (round_units (Zpos p2) (Zpos d2)));
      try reflexivity; try lia.
    simpl. apply Qle_bool_iff. now apply Qopp_le_compat, of_units_le.
Qed.

(** Integers of magnitude below 2^53 are doubles. *)
Lemma round64_int (c : Z) :
  (0 <= c < 2 ^ 53)%Z ->
  exists v, round64 (inject_Z c) = Fin v /\ (v == inject_Z c)%Q.
Proof.
  intros Hc. unfold round64; simpl Qnum; simpl Qden. cbv zeta.
  destruct c as [|p|p]; [| |lia].
  - exists 0%Q. split; reflexivity.
  - rewrite round_units_exact by lia.
    assert (Z.pos p * 2 ^ unit_exponent < overflow_units)%Z.
    { unfold overflow_units.
      change 2098%Z with (1024 + unit_exponent)%Z.
      rewrite Z.pow_add_r by (unfold unit_exponent; lia).
      pose proof unit_pos.
      assert (2 ^ 53 < 2 ^ 1024)%Z by (apply Z.pow_lt_mono_r; lia). nia. }
    destruct (Z.leb_spec overflow_units (Z.pos p * 2 ^ unit_exponent)); [lia|].
    eexists. split; [reflexivity|]. apply of_units_int.
Qed.

Lemma round64_le (q : Q) (c : Z) :
  (q <= inject_Z c)%Q -> (0 <= c < 2 ^ 53)%Z ->
  round64 q = NInf \/ exists v, round64 q = Fin v /\ (v <= inject_Z c)%Q.
Proof.
  intros H Hc. apply round64_mono in H.
  destruct (round64_int c Hc) as (w & Ew & Hw). rewrite Ew in H.
  pose proof (round64_not_NaN q).
  destruct (round64 q) as [| | |v]; simpl in H; try discriminate; try tauto.
  right. exists v. split; [reflexivity|].
  apply Qle_bool_iff in H. now rewrite <- Hw.
Qed.

Lemma round64_ge (q : Q) (c : Z) :
  (inject_Z c <= q)%Q -> (0 <= c < 2 ^ 53)%Z ->
  round64 q = PInf \/ exists v, round64 q = Fin v /\ (inject_Z c <= v)%Q.
Proof.
  intros H Hc. apply round64_mono in H.
  destruct (round64_int c Hc) as (w & Ew & Hw). rewrite Ew in H.
  pose proof (round64_not_NaN q).
  destruct (round64 q) as [| | |v]; simpl in H; try discriminate; try tauto.
  right. exists v. split; [reflexivity|].
  apply Qle_bool_iff in H. now rewrite <- Hw.
Qed.

End Round64Facts.

(* ------------------------------------------------------------------ *)
(** ** The reconnect delay *)

Section BackoffFacts.
Import Number Backoff.

(** The cap lets NaN through and nothing else. *)
Lemma min_NaN (x : num) : min x maxDelay = NaN <-> x = NaN.
Proof.
  unfold maxDelay. destruct x as [| | |a]; simpl; try tauto;
    try (split; discriminate).
  destruct (Qle_bool a 30000); split; discriminate.
Qed.

(** What the cap leaves: NaN, minus infinity, or at most 30000. *)
Lemma delay_capped (Math_pow : num -> num -> num) (attempt baseDelay : num) :
  delay Math_pow attempt baseDelay = NaN \/
  delay Math_pow attempt baseDelay = NInf \/
  exists a, delay Math_pow attempt baseDelay = Fin a /\ (a <= 30000)%Q.
Proof.
  unfold delay, maxDelay.
  destruct (mul baseDelay (Math_pow (Fin 2) attempt)) as [| | |a]; simpl; auto.
  - right. right. exists 30000%Q. split; [reflexivity|apply Qle_refl].
  - destruct (Qle_bool a 30000) eqn:E.
    + right. right. exists a. split; [reflexivity|]. now apply Qle_bool_iff.
    + right. right. exists 30000%Q. split; [reflexivity|apply Qle_refl].
Qed.

(** The jitter term is a number between 0 and 1000. *)
Lemma jitter_term (r : Q) :
  (0 <= r)%Q -> (r < 1)%Q ->
  exists v, mul (Fin r) (Fin 1000) = Fin v /\ (0 <= v <= 1000)%Q.
Proof.
  intros H0 H1. simpl.
  assert (Hle : (r * 1000 <= inject_Z 1000)%Q).
  { change (inject_Z 1000) with (1 * 1000)%Q.
    apply Qmult_le_compat_r; [now apply Qlt_le_weak | discriminate]. }
  assert (Hge : (inject_Z 0 <= r * 1000)%Q).
  { change (inject_Z 0) with (0 * 1000)%Q.
    apply Qmult_le_compat_r; [exact H0 | discriminate]. }
  destruct (round64_le _ 1000 Hle ltac:(lia)) as [E | (v & E & Hv)];
    destruct (round64_ge _ 0 Hge ltac:(lia)) as [E' | (v' & E' & Hv')];
    try congruence.
  exists v. split; [exact E|]. split; [|exact Hv].
  assert (v' = v) by congruence. now subst.
Qed.

(** C2, as stated, fails: the jitter is added after the cap.  At attempt
    5 with the default base delay and a draw of 1/2 the function returns
    30500. *)
Lemma C2_delay_exceeds_cap :
  ~ (forall (Math_pow : num -> num -> num) (attempt : num)
            (baseDelay : option num) (jitter : Q),
       (0 <= jitter)%Q -> (jitter < 1)%Q ->
       leb (calculateBackoffDelay Math_pow attempt baseDelay (Fin jitter))
           (Fin 30000) = true).
Proof.
  intros H.
  specialize (H pow_of_two (Fin 5) None (1 # 2) ltac:(discriminate) eq_refl).
  vm_compute in H. discriminate H.
Qed.

(** C2, amended.  For every attempt, every base delay, every [Math.pow]
    and every jitter in [0, 1): the delay before jitter is NaN or at
    most 30000, and the result is NaN or at most 31000; it is NaN
    exactly when the product of the base delay and the power is. *)
Theorem C2_delay_bounded (Math_pow : num -> num -> num) (attempt : num)
    (baseDelay : option num) (jitter : Q) :
  (0 <= jitter)%Q -> (jitter < 1)%Q ->
  (delay Math_pow attempt (default (Fin 1000) baseDelay) = NaN \/
   leb (delay Math_pow attempt (default (Fin 1000) baseDelay)) (Fin 30000)
   = true) /\
  (calculateBackoffDelay Math_pow attempt baseDelay (Fin jitter) = NaN \/
   leb (calculateBackoffDelay Math_pow attempt baseDelay (Fin jitter))
       (Fin 31000) = true) /\
  (calculateBackoffDelay Math_pow attempt baseDelay (Fin jitter) = NaN <->
   mul (default (Fin 1000) baseDelay) (Math_pow (Fin 2) attempt) = NaN).
Proof.
  intros H0 H1. unfold calculateBackoffDelay. cbv zeta.
  set (b := default (Fin 1000) baseDelay).
  destruct (jitter_term jitter H0 H1) as (v & -> & Hv0 & Hv).
  pose proof (min_NaN (mul b (Math_pow (Fin 2) attempt))) as HN.
  fold (delay Math_pow attempt b) in HN.
  destruct (delay_capped Math_pow attempt b) as [E | [E | (a & E & Ha)]];
    rewrite E in *; simpl.
  - split; [now left|]. split; [now left|]. tauto.
  - split; [now right|]. split; [now right|].
    rewrite <- HN. split; discriminate.
  - split; [right; now apply Qle_bool_iff|].
    assert (Hs : (a + v <= inject_Z 31000)%Q).
    { change (inject_Z 31000) with (30000 + 1000)%Q.
      now apply Qplus_le_compat. }
    split.
    + right.
      destruct (round64_le _ 31000 Hs ltac:(lia)) as [-> | (w & -> & Hw)];
        [reflexivity|]. now apply Qle_bool_iff.
    + rewrite <- HN. split; [|discriminate].
      intros X. now apply round64_not_NaN in X.
Qed.

Lemma C2_delay_bounded_witness :
  (delay pow_of_two (Fin 5) (default (Fin 1000) None) = NaN \/
   leb (delay pow_of_two (Fin 5) (default (Fin 1000) None)) (Fin 30000)
   = true) /\
  (calculateBackoffDelay pow_of_two (Fin 5) None (Fin (1 # 2)) = NaN \/
   leb (calculateBackoffDelay pow_of_two (Fin 5) None (Fin (1 # 2)))
       (Fin 31000) = true) /\
  (calculateBackoffDelay pow_of_two (Fin 5) None (Fin (1 # 2)) = NaN <->
   mul (default (Fin 1000) None) (pow_of_two (Fin 2) (Fin 5)) = NaN).
Proof.
  apply (C2_delay_bounded pow_of_two (Fin 5) None (1 # 2));
    [discriminate | reflexivity].
Defined.

End BackoffFacts.

(* ------------------------------------------------------------------ *)
(** ** CORS headers *)

Section CorsFacts.
Import Cors.

Lemma header_names_distinct :
  Allow_Origin <> Allow_Methods /\ Allow_Origin <> Allow_Headers /\
  Allow_Origin <> Allow_Credentials /\ Allow_Methods <> Allow_Headers /\
  Allow_Methods <> Allow_Credentials /\ Allow_Headers <> Allow_Credentials.
Proof. repeat split; intros H; vm_compute in H; discriminate. Qed.

Ltac lookup_headers :=
  destruct header_names_distinct as (? & ? & ? & ? & ? & ?);
  unfold getCorsHeaders;
  cbn [default from_option id origin methods allowedHeaders credentials];
  repeat match goal with
         | |- context [match ?x with _ => _ end] => is_var x; destruct x
         end;
  repeat first
    [ rewrite lookup_insert_eq
    | rewrite lookup_insert_ne by congruence
    | rewrite lookup_empty ];
  try reflexivity; eauto.

(** What [getCorsHeaders] binds the origin header to. *)
Lemma lookup_Allow_Origin (options : CorsOptions) :
  getCorsHeaders (Some options) !! Allow_Origin =
  match origin options with
  | Some (OriginBool true) => Some (lit "*")
  | Some (OriginString s) => Some s
  | Some (OriginArray l) => Some (or_else (head l) (lit "*"))
  | Some (OriginBool false) | None => None
  end.
Proof. destruct options as [o m h c]; simpl. lookup_headers. Qed.

Lemma lookup_Allow_Credentials (options : CorsOptions) :
  getCorsHeaders (Some options) !! Allow_Credentials =
  match credentials options with
  | Some true => Some (lit "true")
  | Some false | None => None
  end.
Proof. destruct options as [o m h c]; simpl. lookup_headers. Qed.

Lemma lookup_Allow_Methods (options : CorsOptions) :
  getCorsHeaders (Some options) !! Allow_Methods =
  Some (match methods options with
        | Some ms => join (lit ", ") ms
        | None => lit "GET, POST, PUT, DELETE, OPTIONS"
        end).
Proof. destruct options as [o m h c]; simpl. lookup_headers. Qed.

Lemma lookup_Allow_Headers (options : CorsOptions) :
  getCorsHeaders (Some options) !! Allow_Headers =
  Some (match allowedHeaders options with
        | Some hs => join (lit ", ") hs
        | None => lit "Content-Type, Authorization, X-Requested-With"
        end).
Proof. destruct options as [o m h c]; simpl. lookup_headers. Qed.

Lemma getCorsHeaders_default :
  getCorsHeaders None = getCorsHeaders (Some no_options).
Proof. reflexivity. Qed.

(** C3, as stated, fails: an array whose first element is the empty
    string yields the wildcard, not that element. *)
Lemma C3_empty_first_origin_replaced :
  ~ (forall (options : CorsOptions) (first : jsstring) (rest : list jsstring),
       origin options = Some (OriginArray (first :: rest)) ->
       getCorsHeaders (Some options) !! Allow_Origin = Some first).
Proof.
  intros H.
  specialize (H (mkCorsOptions (Some (OriginArray [lit ""])) None None None)
                (lit "") [] eq_refl).
  rewrite lookup_Allow_Origin in H. discriminate H.
Qed.

(** C3, amended.  For every CorsOptions whose origin is an array: when
    the array has a first element and that element is not the empty
    string, the origin header is bound to it; when the array is empty or
    its first element is the empty string, the header is bound to the
    wildcard. *)
Theorem C3_array_origin (options : CorsOptions) (l : list jsstring) :
  origin options = Some (OriginArray l) ->
  (forall first rest, l = first :: rest -> first <> [] ->
     getCorsHeaders (Some options) !! Allow_Origin = Some first) /\
  (l = [] \/ (exists rest, l = [] :: rest) ->
     getCorsHeaders (Some options) !! Allow_Origin = Some (lit "*")).
Proof.
  intros Ho. rewrite lookup_Allow_Origin, Ho. split.
  - intros first rest -> Hne. simpl. destruct first; [contradiction|reflexivity].
  - intros [-> | (rest & ->)]; reflexivity.
Qed.

Lemma C3_array_origin_witness :
  getCorsHeaders (Some (getDefaultCorsOptions false)) !! Allow_Origin
  = Some (lit "http://localhost:3000").
Proof.
  refine (proj1 (C3_array_origin (getDefaultCorsOptions false)
                   [lit "http://localhost:3000"; lit "https://your-domain.com"]
                   eq_refl) _ _ eq_refl _).
  discriminate.
Defined.

(** C5.  For every CorsOptions: an origin of [true] binds the origin
    header to the wildcard, a string origin binds it to exactly that
    string, and credentials of [true] put the credentials header in the
    map (bound to ["true"]). *)
Theorem C5_origin_and_credentials (options : CorsOptions) :
  (origin options = Some (OriginBool true) ->
     getCorsHeaders (Some options) !! Allow_Origin = Some (lit "*")) /\
  (forall s, origin options = Some (OriginString s) ->
     getCorsHeaders (Some options) !! Allow_Origin = Some s) /\
  (credentials options = Some true ->
     getCorsHeaders (Some options) !! Allow_Credentials = Some (lit "true")).
Proof.
  rewrite lookup_Allow_Origin, lookup_Allow_Credentials.
  split; [|split].
  - now intros ->.
  - now intros s ->.
  - now intros ->.
Qed.

Lemma C5_origin_and_credentials_witness :
  getCorsHeaders (Some (getDefaultCorsOptions true)) !! Allow_Origin
    = Some (lit "*") /\
  getCorsHeaders
    (Some (mkCorsOptions (Some (OriginString (lit "https://a.example")))
             None None None)) !! Allow_Origin
    = Some (lit "https://a.example") /\
  getCorsHeaders (Some (getDefaultCorsOptions true)) !! Allow_Credentials
    = Some (lit "true").
Proof.
  split; [|split].
  - exact (proj1 (C5_origin_and_credentials (getDefaultCorsOptions true))
             eq_refl).
  - exact (proj1 (proj2 (C5_origin_and_credentials
             (mkCorsOptions (Some (OriginString (lit "https://a.example")))
                None None None))) _ eq_refl).
  - exact (proj2 (proj2 (C5_origin_and_credentials
             (getDefaultCorsOptions true))) eq_refl).
Defined.

Lemma includes_In (xs : list jsstring) (x : jsstring) :
  includes xs x = true <-> In x xs.
Proof.
  unfold includes. rewrite existsb_exists. split.
  - intros (y & Hy & Hd). apply bool_decide_eq_true in Hd. now subst.
  - intros H. exists x. split; [exact H|]. now apply bool_decide_eq_true.
Qed.

(** C9.  [isValidOrigin] returns [true] exactly when the origin is not
    the empty string and the list holds that origin or the wildcard. *)
Theorem C9_isValidOrigin_iff (origin : jsstring) (allowedOrigins : list jsstring) :
  isValidOrigin origin allowedOrigins = true <->
  origin <> [] /\ (In origin allowedOrigins \/ In (lit "*") allowedOrigins).
Proof.
  unfold isValidOrigin. destruct origin as [|c origin']; simpl.
  - split; [discriminate | intros [H _]; now contradiction H].
  - rewrite orb_true_iff, !includes_In. split.
    + intros H. split; [discriminate | exact H].
    + now intros [_ H].
Qed.

(** C10.  For every argument of [getCorsHeaders], the omitted one
    included, the map binds the methods header and the allowed-headers
    header; options that leave methods or allowed headers out get the
    default value for it; the origin and credentials headers can be
    absent, as they are for the omitted argument. *)
Theorem C10_methods_and_headers_always_present :
  (forall options : option CorsOptions,
     is_Some (getCorsHeaders options !! Allow_Methods) /\
     is_Some (getCorsHeaders options !! Allow_Headers)) /\
  (forall options : CorsOptions, methods options = None ->
     getCorsHeaders (Some options) !! Allow_Methods
     = Some (lit "GET, POST, PUT, DELETE, OPTIONS")) /\
  (forall options : CorsOptions, allowedHeaders options = None ->
     getCorsHeaders (Some options) !! Allow_Headers
     = Some (lit "Content-Type, Authorization, X-Requested-With")) /\
  getCorsHeaders None !! Allow_Methods
    = Some (lit "GET, POST, PUT, DELETE, OPTIONS") /\
  getCorsHeaders None !! Allow_Headers
    = Some (lit "Content-Type, Authorization, X-Requested-With") /\
  getCorsHeaders None !! Allow_Origin = None /\
  getCorsHeaders None !! Allow_Credentials = None.
Proof.
  split; [|split; [|split]].
  - intros [options|]; [|rewrite getCorsHeaders_default];
      rewrite lookup_Allow_Methods, lookup_Allow_Headers; split; eauto.
  - intros options H. now rewrite lookup_Allow_Methods, H.
  - intros options H. now rewrite lookup_Allow_Headers, H.
  - rewrite getCorsHeaders_default, lookup_Allow_Methods, lookup_Allow_Headers,
      lookup_Allow_Origin, lookup_Allow_Credentials. repeat split.
Qed.

Lemma C10_methods_and_headers_always_present_witness :
  getCorsHeaders
    (Some (mkCorsOptions (Some (OriginBool false)) None None (Some false)))
    !! Allow_Methods
  = Some (lit "GET, POST, PUT, DELETE, OPTIONS") /\
  getCorsHeaders
    (Some (mkCorsOptions (Some (OriginBool false)) None None (Some false)))
    !! Allow_Headers
  = Some (lit "Content-Type, Authorization, X-Requested-With").
Proof.
  split.
  - exact (proj1 (proj2 C10_methods_and_headers_always_present)
             (mkCorsOptions (Some (OriginBool false)) None None (Some false))
             eq_refl).
  - exact (proj1 (proj2 (proj2 C10_methods_and_headers_always_present))
             (mkCorsOptions (Some (OriginBool false)) None None (Some false))
             eq_refl).
Defined.

End CorsFacts.

(* ------------------------------------------------------------------ *)
(** ** The Content Security Policy header *)

Section CspFacts.
Import Csp.

Lemma getCSPHeader_unfold (nonce : option jsstring) :
  getCSPHeader nonce =
  lit "default-src 'self'" ++ lit "; " ++ script_src nonce ++
  lit "; style-src 'self' 'unsafe-inline'; img-src 'self' data: blob:; font-src 'self'; connect-src 'self' ws: wss:; frame-ancestors 'none'; base-uri 'self'; form-action 'self'".
Proof. reflexivity. Qed.

(** C8, as stated, fails: the empty string is a nonce that can be
    supplied, and it leaves the [script-src] directive as it is without
    a nonce. *)
Lemma C8_empty_nonce_changes_nothing :
  ~ (forall n : jsstring, script_src (Some n) <> script_src None).
Proof. intros H. now apply (H (lit "")). Qed.

(** C8, amended.  For every optional nonce the header starts with, and
    so contains, [default-src 'self'], and contains its [script-src]
    directive.  When a nonce other than the empty string is supplied,
    that directive ends in ['nonce-<nonce>'] where the directive without
    a nonce ends in ['unsafe-inline'], so the two directives, and the
    two headers, differ. *)
Theorem C8_csp_header (nonce : option jsstring) :
  occurs_in (lit "default-src 'self'") (getCSPHeader nonce) /\
  occurs_in (script_src nonce) (getCSPHeader nonce) /\
  script_src None = lit "script-src 'self' 'unsafe-eval' 'unsafe-inline'" /\
  (forall n : jsstring, n <> [] ->
     script_src (Some n)
       = lit "script-src 'self' 'unsafe-eval' 'nonce-" ++ n ++ lit "'" /\
     script_src (Some n) <> script_src None /\
     getCSPHeader (Some n) <> getCSPHeader None).
Proof.
  split; [|split; [|split]].
  - exists [], (skipn (length (lit "default-src 'self'")) (getCSPHeader nonce)).
    reflexivity.
  - rewrite getCSPHeader_unfold. eexists (_ ++ _), _.
    rewrite <- app_assoc. reflexivity.
  - reflexivity.
  - intros n Hn. destruct n as [|c n]; [contradiction|].
    split; [reflexivity|]. split.
    + intros H. vm_compute in H. discriminate H.
    + intros H. vm_compute in H. discriminate H.
Qed.

Lemma C8_csp_header_witness :
  script_src (Some (lit "r4nd0m"))
    = lit "script-src 'self' 'unsafe-eval' 'nonce-r4nd0m'" /\
  script_src (Some (lit "r4nd0m")) <> script_src None /\
  getCSPHeader (Some (lit "r4nd0m")) <> getCSPHeader None.
Proof.
  refine (proj2 (proj2 (proj2 (C8_csp_header None))) (lit "r4nd0m") _).
  discriminate.
Defined.

End CspFacts.

(* ------------------------------------------------------------------ *)
(** ** Which security helpers return, and where *)

Section SecurityFacts.
Import Security.
Context {W : Type}.

(** [sanitizeHtml] returns where [window] is not defined and where the
    imported sanitizer has its method. *)
Lemma sanitizeHtml_returns_iff (e : env W) (html : jsstring) :
  returns (sanitizeHtml e html) <->
  window e = None \/ DOMPurify_sanitize e <> None.
Proof.
  unfold sanitizeHtml, call_member.
  destruct (window e) as [w|], (DOMPurify_sanitize e) as [f|]; simpl; split;
    try (intros _; eexists; reflexivity); try (intros _; now left);
    try (intros _; right; discriminate).
  - intros [v Hv]. discriminate.
  - intros [H|H]; [discriminate | now contradiction H].
Qed.

Lemma generateSecureToken_returns (e : env W) :
  returns (generateSecureToken e).
Proof.
  unfold generateSecureToken.
  destruct (window e) as [w|]; [destruct (crypto w)|]; eexists; eauto.
Qed.

(** With a [document], [escapeHtml] returns what the browser serialises. *)
Lemma escapeHtml_with_document (e : env W) (doc : Document) (text : jsstring) :
  document e = Some doc ->
  escapeHtml e text = Normal (innerHTML_of_textContent doc text).
Proof. intros H. unfold escapeHtml. now rewrite H. Qed.

(** The token drawn from [window.crypto] is 64 hexadecimal digits. *)
Lemma padded_byte_length (b : N) : length (padStart 2 48 (toString16 b)) = 2%nat.
Proof. unfold padStart, toString16. destruct (b <? 16)%N; reflexivity. Qed.

Lemma join_empty_length (parts : list jsstring) (n : nat) :
  Forall (fun p => length p = n) parts ->
  length (join [] parts) = (length parts * n)%nat.
Proof.
  induction 1 as [|p parts Hp _ IH]; [reflexivity|].
  destruct parts as [|q parts].
  - simpl. lia.
  - change (join [] (p :: q :: parts)) with (p ++ [] ++ join [] (q :: parts)).
    rewrite !length_app, IH, Hp. simpl. lia.
Qed.

Lemma generateSecureToken_crypto_length (e : env W) (w : Window) (c : Crypto) :
  window e = Some w -> crypto w = Some c ->
  exists token, generateSecureToken e = Normal token /\ length token = 64%nat.
Proof.
  intros Hw Hc. unfold generateSecureToken. rewrite Hw, Hc.
  eexists. split; [reflexivity|].
  rewrite (join_empty_length _ 2).
  - now rewrite length_map.
  - apply List.Forall_forall. intros p Hp. apply in_map_iff in Hp as (b & <- & _).
    apply padded_byte_length.
Qed.

(** C4 fails on the code at [escapeHtml].  On the server, where no
    browser global is defined, [escapeHtml] raises a ReferenceError for
    every text, while [sanitizeHtml] and [generateSecureToken], which
    test for [window] first, return; [validateInput] is a total boolean
    function. *)
Theorem C4_escapeHtml_throws_on_server
    (sanitize : option (jsstring -> jsstring)) (rnd : nat -> jsstring)
    (text : jsstring) :
  escapeHtml (server (W := W) sanitize rnd) text
    = Throw (ReferenceError "document") /\
  sanitizeHtml (server (W := W) sanitize rnd) text = Normal text /\
  returns (generateSecureToken (server (W := W) sanitize rnd)).
Proof.
  split; [reflexivity|]. split; [reflexivity|].
  apply generateSecureToken_returns.
Qed.

(** C6.  Where [window] is not defined, [sanitizeHtml] returns its
    argument unchanged. *)
Theorem C6_sanitizeHtml_server_identity (e : env W) (html : jsstring) :
  window e = None -> sanitizeHtml e html = Normal html.
Proof. intros H. unfold sanitizeHtml. now rewrite H. Qed.

End SecurityFacts.

Lemma C6_sanitizeHtml_server_identity_witness :
  Security.sanitizeHtml (server (W := unit) None (fun _ => []))
    (lit "<b onclick=x>hi</b>")
  = Normal (lit "<b onclick=x>hi</b>").
Proof.
  apply (C6_sanitizeHtml_server_identity
           (server (W := unit) None (fun _ => []))
           (lit "<b onclick=x>hi</b>")).
  reflexivity.
Defined.

(* ------------------------------------------------------------------ *)
(** ** Storage accessors outside a browser *)

Section SsrFacts.
Import Ssr.
Context {W : Type}.

(** A run of the inert storage object answers every call, changes
    nothing and never raises. *)
Lemma run_noop_storage (cs : list call) (w : W) :
  run noop_storage cs w = (Normal (map inert_answer cs), w).
Proof.
  induction cs as [|c cs IH]; [reflexivity|].
  simpl. destruct c; simpl; now rewrite IH.
Qed.

Lemma server_safeLocalStorage (e : env W) :
  window e = None -> safeLocalStorage e = Normal noop_storage.
Proof. intros H. unfold safeLocalStorage, isServer. now rewrite H. Qed.

Lemma server_safeSessionStorage (e : env W) :
  window e = None -> safeSessionStorage e = Normal noop_storage.
Proof. intros H. unfold safeSessionStorage, isServer. now rewrite H. Qed.

(** C7.  Where [window] is not defined, [safeLocalStorage] and
    [safeSessionStorage] return, without raising, an object with the four
    storage methods; on either object [getItem] answers [null] and
    [setItem], [removeItem] and [clear] answer [undefined], none of them
    changes the world, and every sequence of calls runs to its end with
    those answers and the world it started in. *)
Theorem C7_server_storage_is_inert (e : env W) :
  window e = None ->
  exists st_local st_session : Storage W,
    safeLocalStorage e = Normal st_local /\
    safeSessionStorage e = Normal st_session /\
    forall st, st = st_local \/ st = st_session ->
      (forall key w, getItem st key w = (Normal VNull, w)) /\
      (forall key v w, setItem st key v w = (Normal VUndefined, w)) /\
      (forall key w, removeItem st key w = (Normal VUndefined, w)) /\
      (forall w, clear st w = (Normal VUndefined, w)) /\
      (forall cs w, run st cs w = (Normal (map inert_answer cs), w)).
Proof.
  intros H. exists noop_storage, noop_storage.
  split; [now apply server_safeLocalStorage|].
  split; [now apply server_safeSessionStorage|].
  intros st [-> | ->]; repeat split; auto using run_noop_storage.
Qed.

End SsrFacts.

Lemma C7_server_storage_is_inert_witness :
  exists st_local st_session : Storage nat,
    Ssr.safeLocalStorage (server None (fun _ => [])) = Normal st_local /\
    Ssr.safeSessionStorage (server None (fun _ => []))
      = Normal st_session /\
    forall st, st = st_local \/ st = st_session ->
      (forall key w, getItem st key w = (Normal VNull, w)) /\
      (forall key v w, setItem st key v w = (Normal VUndefined, w)) /\
      (forall key w, removeItem st key w = (Normal VUndefined, w)) /\
      (forall w, clear st w = (Normal VUndefined, w)) /\
      (forall cs w, Ssr.run st cs w = (Normal (map inert_answer cs), w)).
Proof.
  apply (C7_server_storage_is_inert (server None (fun _ => []))).
  reflexivity.
Defined.

(* ------------------------------------------------------------------ *)
(** ** The definitions at work on concrete inputs *)

Section Examples.
Import Security Cors Csp Number Backoff.

Example validateInput_plain_text :
  validateInput (lit "Hello, world") None = true.
Proof. reflexivity. Qed.

Example validateInput_event_handler :
  validateInput (lit "<img src=x onerror =alert(1)>") None = false.
Proof. reflexivity. Qed.

Example validateInput_on_without_name :
  validateInput (lit "turn on = off") None = true.
Proof. reflexivity. Qed.

Example validateInput_data_url :
  validateInput (lit "DATA:text/HTML,hi") None = false.
Proof. reflexivity. Qed.

Example validateInput_at_the_limit :
  validateInput (lit "abc") (Some (3 # 1)) = true.
Proof. reflexivity. Qed.

Example getCSPHeader_without_nonce :
  getCSPHeader None =
  lit "default-src 'self'; script-src 'self' 'unsafe-eval' 'unsafe-inline'; style-src 'self' 'unsafe-inline'; img-src 'self' data: blob:; font-src 'self'; connect-src 'self' ws: wss:; frame-ancestors 'none'; base-uri 'self'; form-action 'self'".
Proof. reflexivity. Qed.

Example getCSPHeader_empty_nonce :
  getCSPHeader (Some (lit "")) = getCSPHeader None.
Proof. reflexivity. Qed.

Example getCorsHeaders_production_defaults :
  getCorsHeaders (Some (getDefaultCorsOptions false)) !! Allow_Methods
  = Some (lit "GET, POST, PUT, DELETE, OPTIONS").
Proof. now rewrite lookup_Allow_Methods. Qed.

Example getCorsHeaders_empty_array :
  getCorsHeaders (Some (mkCorsOptions (Some (OriginArray [])) None None None))
    !! Allow_Origin
  = Some (lit "*").
Proof. now rewrite lookup_Allow_Origin. Qed.

Example isValidOrigin_wildcard :
  isValidOrigin (lit "https://a.example") [lit "https://b.example"; lit "*"]
  = true.
Proof. reflexivity. Qed.

Example calculateBackoffDelay_first_attempt :
  calculateBackoffDelay pow_of_two (Fin 0) None (Fin (1 # 4)) = Fin 1250.
Proof. vm_compute. reflexivity. Qed.

Example calculateBackoffDelay_past_the_cap :
  calculateBackoffDelay pow_of_two (Fin 5) None (Fin (1 # 2)) = Fin 30500.
Proof. vm_compute. reflexivity. Qed.

(** The largest draw below 1, 1 - 2^-53, takes the result to 31000. *)
Example calculateBackoffDelay_reaches_31000 :
  calculateBackoffDelay pow_of_two (Fin 5) None
    (Fin (9007199254740991 # 9007199254740992))
  = Fin 31000.
Proof. vm_compute. reflexivity. Qed.

(** [Math.pow(2, 1024)] is infinite, and zero times infinity is NaN. *)
Example calculateBackoffDelay_zero_base_overflow :
  calculateBackoffDelay pow_of_two (Fin 1024) (Some (Fin 0)) (Fin (1 # 2))
  = NaN.
Proof. vm_compute. reflexivity. Qed.

Example calculateBackoffDelay_negative_attempt :
  calculateBackoffDelay pow_of_two (Fin (-3)) None (Fin (1 # 4)) = Fin 375.
Proof. vm_compute. reflexivity. Qed.

(** The arithmetic of [Number] set against the binary64 arithmetic built
    into the proof assistant: inexact results, ties, subnormal results,
    overflow. *)
Example mul_agrees_with_binary64 :
  forallb (fun '(x, y) =>
             eqb (mul (of_float x) (of_float y)) (of_float (PrimFloat.mul x y)))
    [ (0x1.999999999999ap-4, 0x1.999999999999ap-3);
      (0x1.fffffffffffffp-1, 1000);
      (0x1.fffffffffffffp1023, 0x1.0000000000001p0);
      (0x1p-1022, 0x1.8p-1);
      (0x1.0000000000001p-1022, 0.5);
      (0x0.0000000000001p-1022, 0.5);
      (0x0.0000000000001p-1022, 0.75);
      (0x1p-537, 0x1p-538);
      (0x1.8p-537, 0x1p-538);
      (3, 0x1.5555555555555p-2);
      (-0x1p600, 0x1p600);
      (1000, 0x1p1014);
      (1000, 0x1p1015) ]%float
  = true.
Proof. vm_compute. reflexivity. Qed.

Example add_agrees_with_binary64 :
  forallb (fun '(x, y) =>
             eqb (add (of_float x) (of_float y)) (of_float (PrimFloat.add x y)))
    [ (0x1.999999999999ap-4, 0x1.999999999999ap-3);
      (30000, 0x1.f3fffffffffffp9);
      (30000, 0x1.f3ffffffffffep9);
      (9007199254740992, 1);
      (9007199254740992, 3);
      (0x1.fffffffffffffp1023, 0x1p970);
      (0x1.fffffffffffffp1023, 0x1.fffffffffffffp969);
      (-0x1.999999999999ap-4, 0x1.3333333333333p-2);
      (0x0.0000000000001p-1022, 0x0.0000000000003p-1022) ]%float
  = true.
Proof. vm_compute. reflexivity. Qed.

Example generateSecureToken_from_crypto :
  generateSecureToken
    (mkEnv (W := unit) (Some (mkWindow (Some (mkCrypto (fun _ => 171%N)))))
       None None None (Some (fun s => s)) (fun _ => []))
  = Normal (lit "abababababababababababababababababababababababababababababababab").
Proof. reflexivity. Qed.

End Examples.

(* ================================================================== *)
(** * Further properties *)

(** ** [validateInput]: the rest of the denylist, and what passes *)

Section ValidateInputMore.
Import RegExp Security.

Lemma existsb_patterns (f : regexp -> bool) :
  existsb f maliciousPatterns = true <->
  exists re, In re maliciousPatterns /\ f re = true.
Proof. apply existsb_exists. Qed.

(** The verdict in terms of its three tests. *)
Lemma validateInput_true_iff (input : jsstring) (maxLength : option Q) :
  validateInput input maxLength = true <->
  input <> [] /\
  (length_of input <= default (1000 # 1) maxLength)%Q /\
  forall re, In re maliciousPatterns -> test re input = false.
Proof.
  unfold validateInput, num_gt. cbv zeta. destruct input as [|c input].
  - change (negb (truthy []) || false) with true. cbv iota.
    split; [discriminate | intros [H _]; now contradiction H].
  - change (negb (truthy (c :: input)) || false) with false. cbv iota.
    destruct (Qle_bool _ _) eqn:E; cbn [negb].
    + apply Qle_bool_iff in E. rewrite negb_true_iff. split.
      * intros H. split; [discriminate|]. split; [exact E|].
        intros re Hre. destruct (test re (c :: input)) eqn:T; [|reflexivity].
        assert (X : existsb (fun pattern => test pattern (c :: input))
                      maliciousPatterns = true)
          by (apply existsb_patterns; eauto).
        congruence.
      * intros (_ & _ & H).
        destruct (existsb _ maliciousPatterns) eqn:X; [|reflexivity].
        apply existsb_patterns in X as (re & Hre & T).
        rewrite (H re Hre) in T. discriminate.
    + split; [discriminate|]. intros (_ & Hle & _).
      apply Qle_bool_iff in Hle. congruence.
Qed.

Lemma validateInput_rejects_match (re : regexp) (input : jsstring)
    (maxLength : option Q) :
  In re maliciousPatterns -> test re input = true ->
  validateInput input maxLength = false.
Proof.
  intros Hre T. destruct (validateInput input maxLength) eqn:V; [|reflexivity].
  apply validateInput_true_iff in V as (_ & _ & H).
  rewrite (H re Hre) in T. discriminate.
Qed.

(** X1.  An input in which [javascript:] or [data:text/html] occurs in
    some letter case is rejected, whatever the length limit. *)
Theorem validateInput_rejects_url_schemes (input : jsstring)
    (maxLength : option Q) :
  occurs_in_any_case (lit "javascript:") input \/
  occurs_in_any_case (lit "data:text/html") input ->
  validateInput input maxLength = false.
Proof.
  intros [H | H].
  - apply (validateInput_rejects_match (mkRegExp (Lit (lit "javascript:")) true)).
    + simpl. auto.
    + now apply test_literal_any_case.
  - apply (validateInput_rejects_match
             (mkRegExp (Lit (lit "data:text/html")) true)).
    + simpl. auto.
    + now apply test_literal_any_case.
Qed.

Lemma validateInput_rejects_url_schemes_witness :
  validateInput (lit "<a href=JavaScript:void(0)>") None = false.
Proof.
  apply (validateInput_rejects_url_schemes (lit "<a href=JavaScript:void(0)>")
           None).
  left. exists (lit "JavaScript:"). split; [reflexivity|].
  exists (lit "<a href="), (lit "void(0)>"). reflexivity.
Defined.

(** [\w] and [\s] do not tell letter cases apart. *)
Lemma class_mem_canonicalize (k : char_class) (c : N) :
  class_mem k (canonicalize true c) = class_mem k c.
Proof.
  unfold canonicalize. simpl andb.
  destruct (in_range 97 122 c) eqn:E; [|reflexivity].
  unfold in_range in E. apply andb_true_iff in E as [E1 E2].
  apply N.leb_le in E1. apply N.leb_le in E2.
  destruct k; unfold class_mem, in_range.
  - rewrite (proj2 (N.leb_le 97 c) E1), (proj2 (N.leb_le c 122) E2).
    rewrite (proj2 (N.leb_le 65 (c - 32)) ltac:(lia)).
    rewrite (proj2 (N.leb_le (c - 32) 90) ltac:(lia)).
    simpl. now rewrite !orb_true_r.
  - repeat match goal with
           | |- context [(?a <=? ?b)%N] =>
               first [ rewrite (proj2 (N.leb_le a b)) by lia
                     | rewrite (proj2 (N.leb_gt a b)) by lia ]
           | |- context [(?a =? ?b)%N] =>
               rewrite (proj2 (N.eqb_neq a b)) by lia
           end.
    reflexivity.
Qed.

Lemma lang_Star_class (k : char_class) (s : jsstring) :
  Forall (fun c => class_mem k c = true) s -> lang true (Star (Cls k)) s.
Proof.
  induction 1 as [|c s Hc _ IH]; [constructor|].
  change (c :: s) with ([c] ++ s). apply lang_StarS; [|exact IH].
  constructor. unfold class_match. now rewrite class_mem_canonicalize.
Qed.

(** X2.  An input is rejected when it holds, anywhere, [on] in some
    letter case followed by one or more word characters, any number of
    white-space characters and an equals sign: the shape of an inline
    event handler attribute. *)
Theorem validateInput_rejects_event_handler
    (input on_kw name spaces : jsstring) (maxLength : option Q) :
  map ascii_lower on_kw = lit "on" ->
  name <> [] ->
  Forall (fun c => class_mem Word c = true) name ->
  Forall (fun c => class_mem Space c = true) spaces ->
  occurs_in (on_kw ++ name ++ spaces ++ lit "=") input ->
  validateInput input maxLength = false.
Proof.
  intros Hon Hne Hname Hsp (pre & post & ->).
  apply (validateInput_rejects_match
           (mkRegExp (Seq (Lit (lit "on"))
              (Seq (Plus (Cls Word)) (Seq (Star (Cls Space)) (Chr 61)))) true)).
  { simpl. auto. }
  unfold test; cbn [source ignoreCase].
  apply search_spec. exists pre, (on_kw ++ name ++ spaces ++ lit "="), post.
  split; [reflexivity|].
  constructor.
  - apply (proj2 (lang_Lit true (lit "on") on_kw)).
    rewrite <- Hon. apply lowered_agrees.
  - constructor; [|constructor].
    + destruct name as [|c name]; [contradiction|].
      inversion Hname as [|? ? Hc Hrest]; subst.
      change (c :: name) with ([c] ++ name). constructor.
      * constructor. unfold class_match. now rewrite class_mem_canonicalize.
      * now apply lang_Star_class.
    + now apply lang_Star_class.
    + now constructor.
Qed.

Lemma validateInput_rejects_event_handler_witness :
  validateInput (lit "<img src=x OnError  =alert(1)>") None = false.
Proof.
  apply (validateInput_rejects_event_handler
           (lit "<img src=x OnError  =alert(1)>")
           (lit "On") (lit "Error") (lit "  ") None).
  - reflexivity.
  - discriminate.
  - repeat constructor.
  - repeat constructor.
  - exists (lit "<img src=x "), (lit "alert(1)>"). reflexivity.
Defined.

(** A punctuation character is its own and only canonical form. *)
Lemma canonicalize_below_letters (c ch : N) :
  canonicalize true c = ch -> (ch < 65)%N -> c = ch.
Proof.
  unfold canonicalize, in_range. simpl andb.
  destruct (N.leb_spec 97 c), (N.leb_spec c 122); simpl; lia.
Qed.

Lemma needs_sound (ch : N) (r : pattern) (s : jsstring) :
  lang true r s -> needs ch r = true ->
  exists c, In c s /\ canonicalize true c = ch.
Proof.
  induction 1 as [|p c Hc|k c Hc|r1 r2 s1 s2 H1 IH1 H2 IH2
                  |r1 r2 s H IH|r1 r2 s H IH|r|r s1 s2 H1 IH1 H2 IH2];
    simpl; intros Hn; try discriminate.
  - exists c. split; [now left|].
    unfold char_match in Hc. apply N.eqb_eq in Hc. apply N.eqb_eq in Hn.
    congruence.
  - apply orb_true_iff in Hn as [Hn | Hn].
    + destruct (IH1 Hn) as (c & Hin & Hc). exists c. split; [|exact Hc].
      apply in_or_app. now left.
    + destruct (IH2 Hn) as (c & Hin & Hc). exists c. split; [|exact Hc].
      apply in_or_app. now right.
  - apply andb_true_iff in Hn as [Hn _]. auto.
  - apply andb_true_iff in Hn as [_ Hn]. auto.
Qed.

(** A pattern that needs a punctuation character is only found in
    inputs that hold it. *)
Lemma test_needs (ch : N) (r : pattern) (input : jsstring) :
  needs ch r = true -> (ch < 65)%N ->
  test (mkRegExp r true) input = true -> In ch input.
Proof.
  intros Hn Hlt T. unfold test in T; cbn [source ignoreCase] in T.
  apply search_spec in T as (pre & mid & post & -> & Hl).
  destruct (needs_sound ch r mid Hl Hn) as (c & Hin & Hc).
  apply canonicalize_below_letters in Hc; [subst c | exact Hlt].
  apply in_or_app. right. apply in_or_app. now left.
Qed.

(** Inputs free of the three marks pass the pattern tests. *)
Lemma unmarked_input_accepted (input : jsstring) (maxLength : option Q) :
  input <> [] ->
  (length_of input <= default (1000 # 1) maxLength)%Q ->
  ~ In 60%N input -> ~ In 58%N input -> ~ In 61%N input ->
  validateInput input maxLength = true.
Proof.
  intros Hne Hlen Hlt Hcolon Heq. apply validateInput_true_iff.
  split; [exact Hne|]. split; [exact Hlen|].
  intros re Hre. destruct (test re input) eqn:T; [exfalso|reflexivity].
  simpl in Hre. destruct Hre as [<- | [<- | [<- | [<- | []]]]].
  - apply Hlt. now apply (test_needs 60 _ input) in T.
  - apply Hcolon. now apply (test_needs 58 _ input) in T.
  - apply Heq. now apply (test_needs 61 _ input) in T.
  - apply Hcolon. now apply (test_needs 58 _ input) in T.
Qed.

(** X3.  No false alarm without the three characters the denylist hangs
    on: a non-empty input within the length limit that holds none of
    [<], [:] and [=] is accepted. *)
Theorem validateInput_accepts_plain (input : jsstring) (maxLength : option Q) :
  input <> [] ->
  (length_of input <= default (1000 # 1) maxLength)%Q ->
  ~ In 60%N input -> ~ In 58%N input -> ~ In 61%N input ->
  validateInput input maxLength = true.
Proof.
  intros Hne Hlen Hlt Hcolon Heq.
  apply unmarked_input_accepted; assumption.
Qed.

Lemma validateInput_accepts_plain_witness :
  validateInput (lit "turn it on again") None = true.
Proof.
  apply (validateInput_accepts_plain (lit "turn it on again") None).
  - discriminate.
  - discriminate.
  - cbv. intuition discriminate.
  - cbv. intuition discriminate.
  - cbv. intuition discriminate.
Defined.



Lemma length_of_app_le (pre s post : jsstring) :
  (length_of s <= length_of (pre ++ s ++ post))%Q.
Proof.
  unfold length_of. rewrite <- Zle_Qle, !length_app. lia.
Qed.

(** X5.  Wrapping a rejected, non-empty input in more text never makes
    it acceptable. *)
Theorem validateInput_rejection_persists (pre s post : jsstring)
    (maxLength : option Q) :
  s <> [] ->
  validateInput s maxLength = false ->
  validateInput (pre ++ s ++ post) maxLength = false.
Proof.
  intros Hne V.
  destruct (validateInput (pre ++ s ++ post) maxLength) eqn:V'; [|reflexivity].
  apply validateInput_true_iff in V' as (_ & Hlen & Hpat).
  assert (Hs : validateInput s maxLength = true); [|congruence].
  apply validateInput_true_iff. split; [exact Hne|]. split.
  - eapply Qle_trans; [apply (length_of_app_le pre s post) | exact Hlen].
  - intros re Hre. specialize (Hpat re Hre).
    destruct (test re s) eqn:T; [|reflexivity].
    unfold test in *. apply search_spec in T as (a & mid & b & -> & Hl).
    assert (X : search (ignoreCase re) (pre ++ (a ++ mid ++ b) ++ post)
                  (source re) = true); [|congruence].
    apply search_spec. exists (pre ++ a), mid, (b ++ post).
    split; [|exact Hl]. now rewrite <- !app_assoc.
Qed.

Lemma validateInput_rejection_persists_witness :
  validateInput (lit "hello " ++ lit "<script" ++ lit ">") None = false.
Proof.
  apply (validateInput_rejection_persists (lit "hello ") (lit "<script")
           (lit ">") None).
  - discriminate.
  - reflexivity.
Defined.

Lemma deriv_ascii_lower (c : N) (r : pattern) :
  deriv true (ascii_lower c) r = deriv true c r.
Proof.
  induction r as [| |p|k|r1 IH1 r2 IH2|r1 IH1 r2 IH2|r IH]; simpl;
    try reflexivity.
  - unfold char_match. now rewrite canonicalize_ascii_lower.
  - unfold class_match. now rewrite canonicalize_ascii_lower.
  - now rewrite IH1, IH2.
  - now rewrite IH1, IH2.
  - now rewrite IH.
Qed.

Lemma match_here_ascii_lower (s : jsstring) : forall r,
  match_here true (map ascii_lower s) r = match_here true s r.
Proof.
  induction s as [|c s IH]; intros r; simpl; [reflexivity|].
  now rewrite deriv_ascii_lower, IH.
Qed.

Lemma search_ascii_lower (s : jsstring) : forall r,
  search true (map ascii_lower s) r = search true s r.
Proof.
  induction s as [|c s IH]; intros r; [reflexivity|].
  change (search true (map ascii_lower (c :: s)) r)
    with (match_here true (map ascii_lower (c :: s)) r
          || search true (map ascii_lower s) r).
  change (search true (c :: s) r)
    with (match_here true (c :: s) r || search true s r).
  now rewrite match_here_ascii_lower, IH.
Qed.

(** X6.  The verdict does not depend on ASCII letter case: an input and
    its lower-cased form are accepted or rejected alike. *)
Theorem validateInput_ignores_case (input : jsstring) (maxLength : option Q) :
  validateInput (map ascii_lower input) maxLength
  = validateInput input maxLength.
Proof.
  unfold validateInput, length_of. cbv zeta. rewrite length_map.
  destruct input as [|c input]; [reflexivity|].
  change (negb (truthy (map ascii_lower (c :: input))) || false) with false.
  change (negb (truthy (c :: input)) || false) with false. cbv iota.
  destruct (num_gt _ _); [reflexivity|]. f_equal.
  unfold maliciousPatterns, test. cbn [existsb source ignoreCase].
  now rewrite !search_ascii_lower.
Qed.

End ValidateInputMore.

(* ------------------------------------------------------------------ *)
(** ** Tokens and nonces; which helper raises where *)

Section TokenFacts.
Import Security Csp.
Context {W : Type}.

Lemma hex_digit_is_hex (d : N) :
  (d < 16)%N -> is_hex_digit (hex_digit d) = true.
Proof.
  intros Hd. unfold hex_digit, is_hex_digit, RegExp.in_range.
  destruct (N.ltb_spec d 10).
  - rewrite (proj2 (N.leb_le 48 (48 + d)) ltac:(lia)).
    now rewrite (proj2 (N.leb_le (48 + d) 57) ltac:(lia)).
  - rewrite (proj2 (N.leb_le 97 (87 + d)) ltac:(lia)).
    rewrite (proj2 (N.leb_le (87 + d) 102) ltac:(lia)).
    apply orb_true_r.
Qed.

Lemma padded_byte_hex (b : N) :
  (b < 256)%N ->
  Forall (fun c => is_hex_digit c = true) (padStart 2 48 (toString16 b)).
Proof.
  intros Hb. unfold padStart, toString16. destruct (N.ltb_spec b 16).
  - simpl. repeat constructor. now apply hex_digit_is_hex.
  - simpl. repeat constructor; apply hex_digit_is_hex.
    + apply N.Div0.div_lt_upper_bound. lia.
    + now apply N.mod_lt.
Qed.

Lemma Forall_join_empty (P : N -> Prop) (parts : list jsstring) :
  Forall (Forall P) parts -> Forall P (join [] parts).
Proof.
  induction 1 as [|p parts Hp _ IH]; [constructor|].
  destruct parts as [|q parts]; [exact Hp|].
  change (join [] (p :: q :: parts)) with (p ++ [] ++ join [] (q :: parts)).
  apply Forall_app. split; [exact Hp | exact IH].
Qed.

(** X7.  With [window.crypto], the token is 64 lower-case hexadecimal
    digits, whatever values the generator draws; such a token passes
    [validateInput] with the default limit. *)
Theorem generateSecureToken_crypto_hex (e : env W) (w : Window) (c : Crypto) :
  window e = Some w -> crypto w = Some c ->
  exists token,
    generateSecureToken e = Normal token /\
    length token = 64%nat /\
    Forall (fun d => is_hex_digit d = true) token /\
    validateInput token None = true.
Proof.
  intros Hw Hc.
  set (token := join [] (map (fun byte => padStart 2 48 (toString16 byte))
                           (getRandomValues c 32))).
  assert (Ht : generateSecureToken e = Normal token).
  { unfold generateSecureToken. now rewrite Hw, Hc. }
  assert (Hlen : length token = 64%nat).
  { destruct (generateSecureToken_crypto_length e w c Hw Hc) as (t & Ht' & Hl).
    congruence. }
  exists token. split; [exact Ht|]. split; [exact Hlen|].
  assert (Hhex : Forall (fun d => is_hex_digit d = true) token).
  { apply Forall_join_empty.
    apply List.Forall_forall. intros p Hp.
    apply in_map_iff in Hp as (b & <- & Hb).
    apply padded_byte_hex. unfold getRandomValues in Hb.
    apply in_map_iff in Hb as (i & <- & _). now apply N.mod_lt. }
  split; [exact Hhex|].
  assert (Hnot : forall ch, is_hex_digit ch = false -> ~ In ch token).
  { intros ch Hch Hin. rewrite List.Forall_forall in Hhex.
    specialize (Hhex ch Hin). congruence. }
  apply unmarked_input_accepted; try (apply Hnot; reflexivity).
  - intros ->. discriminate Hlen.
  - unfold length_of. rewrite Hlen. discriminate.
Qed.

Lemma substring_length (from to : nat) (s : jsstring) :
  length (substring from to s) = Nat.min (to - from) (length s - from).
Proof. unfold substring. now rewrite length_take, length_drop. Qed.

(** X8.  Without [window] or without [window.crypto] the token is what
    [generateNonce] computes: the characters 2 to 14 of two base-36
    renderings of [Math.random()].  Its length is the sum of what each
    rendering has there, never more than 26, and nothing when both
    renderings have at most two characters. *)
Theorem generateSecureToken_fallback (e : env W) :
  window e = None \/ (exists w, window e = Some w /\ crypto w = None) ->
  generateSecureToken e = Normal (generateNonce e) /\
  length (generateNonce e)
    = (Nat.min 13 (length (Math_random_toString36 e 0%nat) - 2)
       + Nat.min 13 (length (Math_random_toString36 e 1%nat) - 2))%nat /\
  (length (generateNonce e) <= 26)%nat.
Proof.
  intros H.
  assert (Hlen : length (generateNonce e)
    = (Nat.min 13 (length (Math_random_toString36 e 0%nat) - 2)
       + Nat.min 13 (length (Math_random_toString36 e 1%nat) - 2))%nat).
  { unfold generateNonce. now rewrite length_app, !substring_length. }
  split; [|split; [exact Hlen | lia]].
  unfold generateSecureToken.
  destruct H as [-> | (w & -> & ->)]; reflexivity.
Qed.

(** X9.  [escapeHtml] returns exactly where [document] is defined and
    raises a ReferenceError elsewhere.  [sanitizeHtml] returns exactly
    where [window] is not defined or the imported sanitizer has its
    [sanitize] method; with [window] defined and the method missing it
    raises a TypeError. *)
Theorem helpers_raise_only_without_document (e : env W) (text : jsstring) :
  (returns (escapeHtml e text) <-> document e <> None) /\
  (document e = None ->
     escapeHtml e text = Throw (ReferenceError "document")) /\
  (returns (sanitizeHtml e text) <->
     window e = None \/ DOMPurify_sanitize e <> None) /\
  (window e <> None -> DOMPurify_sanitize e = None ->
     sanitizeHtml e text = Throw (TypeError "DOMPurify.sanitize")).
Proof.
  split; [|split; [|split]].
  - unfold escapeHtml. destruct (document e) as [doc|]; simpl.
    + split; [discriminate | intros _; eexists; reflexivity].
    + split; [intros [v Hv]; discriminate | intros H; now contradiction H].
  - intros H. unfold escapeHtml. now rewrite H.
  - apply sanitizeHtml_returns_iff.
  - intros Hw Hs. unfold sanitizeHtml. rewrite Hs.
    destruct (window e); [reflexivity | now contradiction Hw].
Qed.

End TokenFacts.

Section TokenWitnesses.
Import Security Csp.

Lemma generateSecureToken_crypto_hex_witness :
  exists token,
    generateSecureToken
      (mkEnv (W := unit) (Some (mkWindow (Some (mkCrypto (fun i => N.of_nat i)))))
         None None None (Some (fun s => s)) (fun _ => []))
      = Normal token /\
    length token = 64%nat /\
    Forall (fun d => is_hex_digit d = true) token /\
    validateInput token None = true.
Proof.
  apply (generateSecureToken_crypto_hex
           (mkEnv (W := unit)
              (Some (mkWindow (Some (mkCrypto (fun i => N.of_nat i)))))
              None None None (Some (fun s => s)) (fun _ => []))
           (mkWindow (Some (mkCrypto (fun i => N.of_nat i))))
           (mkCrypto (fun i => N.of_nat i))); reflexivity.
Defined.

Lemma generateSecureToken_fallback_witness :
  generateSecureToken
    (server (W := unit) None (fun _ => lit "0.k2j5h8x0qz"))
  = Normal (lit "k2j5h8x0qzk2j5h8x0qz").
Proof.
  apply (generateSecureToken_fallback
           (server (W := unit) None (fun _ => lit "0.k2j5h8x0qz"))).
  now left.
Defined.

Lemma helpers_raise_only_without_document_witness :
  escapeHtml (server (W := unit) None (fun _ => [])) (lit "<b>")
    = Throw (ReferenceError "document") /\
  sanitizeHtml
    (mkEnv (W := unit) (Some (mkWindow None)) None None None None
       (fun _ => []))
    (lit "<b>")
    = Throw (TypeError "DOMPurify.sanitize").
Proof.
  split.
  - apply (proj1 (proj2 (helpers_raise_only_without_document
             (server (W := unit) None (fun _ => [])) (lit "<b>")))).
    reflexivity.
  - apply (proj2 (proj2 (proj2 (helpers_raise_only_without_document
             (mkEnv (W := unit) (Some (mkWindow None)) None None None None
                (fun _ => []))
             (lit "<b>"))))); [discriminate | reflexivity].
Defined.

End TokenWitnesses.

(* ------------------------------------------------------------------ *)
(** ** More about the CORS headers *)

Section CorsMore.
Import Cors.

Lemma lookup_other_header (options : CorsOptions) (k : jsstring) :
  k <> Allow_Origin -> k <> Allow_Methods -> k <> Allow_Headers ->
  k <> Allow_Credentials ->
  getCorsHeaders (Some options) !! k = None.
Proof.
  intros Ho Hm Hh Hc. destruct options as [o m h c].
  unfold getCorsHeaders.
  cbn [default from_option id origin methods allowedHeaders credentials].
  repeat match goal with
         | |- context [match ?x with _ => _ end] => is_var x; destruct x
         end;
  repeat first
    [ rewrite lookup_insert_ne by congruence
    | rewrite lookup_empty ];
  reflexivity.
Qed.

(** X10.  The map holds no header but the four CORS headers.  The origin
    header is in it exactly when the options give an origin other than
    [false], and the credentials header exactly when credentials are
    [true]. *)
Theorem getCorsHeaders_keys (options : CorsOptions) :
  (forall k : jsstring, is_Some (getCorsHeaders (Some options) !! k) ->
     k = Allow_Origin \/ k = Allow_Methods \/ k = Allow_Headers \/
     k = Allow_Credentials) /\
  (is_Some (getCorsHeaders (Some options) !! Allow_Origin) <->
     exists o, origin options = Some o /\ o <> OriginBool false) /\
  (is_Some (getCorsHeaders (Some options) !! Allow_Credentials) <->
     credentials options = Some true).
Proof.
  split; [|split].
  - intros k Hk.
    destruct (decide (k = Allow_Origin)) as [|Ho]; [auto|].
    destruct (decide (k = Allow_Methods)) as [|Hm]; [auto|].
    destruct (decide (k = Allow_Headers)) as [|Hh]; [auto|].
    destruct (decide (k = Allow_Credentials)) as [|Hc]; [auto 6|].
    rewrite (lookup_other_header options k Ho Hm Hh Hc) in Hk.
    now destruct Hk.
  - rewrite lookup_Allow_Origin.
    destruct (origin options) as [[[|]|s|l]|]; split;
      try (intros _; eexists; split; [reflexivity|discriminate]);
      try (intros _; eexists; reflexivity);
      try (intros [x Hx]; discriminate).
    + intros (o & [= <-] & Ho). now contradiction Ho.
    + intros (o & Ho & _). discriminate.
  - rewrite lookup_Allow_Credentials.
    destruct (credentials options) as [[|]|]; split;
      try (intros _; eexists; reflexivity); try reflexivity;
      try discriminate; intros [x Hx]; discriminate.
Qed.

Lemma getCorsHeaders_keys_witness :
  lit "Access-Control-Allow-Origin" = Allow_Origin \/
  lit "Access-Control-Allow-Origin" = Allow_Methods \/
  lit "Access-Control-Allow-Origin" = Allow_Headers \/
  lit "Access-Control-Allow-Origin" = Allow_Credentials.
Proof.
  apply (proj1 (getCorsHeaders_keys (getDefaultCorsOptions true))
           (lit "Access-Control-Allow-Origin")).
  rewrite lookup_Allow_Origin. eexists. reflexivity.
Defined.

(** X11.  Methods or allowed headers given as an array always replace
    the default, also when the array is empty: the header is the array
    joined by a comma and a space, and the empty string for no element. *)
Theorem getCorsHeaders_explicit_lists (options : CorsOptions)
    (ms : list jsstring) :
  (methods options = Some ms ->
     getCorsHeaders (Some options) !! Allow_Methods
     = Some (join (lit ", ") ms)) /\
  (allowedHeaders options = Some ms ->
     getCorsHeaders (Some options) !! Allow_Headers
     = Some (join (lit ", ") ms)) /\
  (methods options = Some [] ->
     getCorsHeaders (Some options) !! Allow_Methods = Some []) /\
  (allowedHeaders options = Some [] ->
     getCorsHeaders (Some options) !! Allow_Headers = Some []).
Proof.
  split; [|split; [|split]]; intros H;
    rewrite ?lookup_Allow_Methods, ?lookup_Allow_Headers; now rewrite H.
Qed.

Lemma getCorsHeaders_explicit_lists_witness :
  getCorsHeaders (Some (mkCorsOptions None (Some [lit "GET"; lit "HEAD"])
                          (Some []) None)) !! Allow_Methods
    = Some (lit "GET, HEAD") /\
  getCorsHeaders (Some (mkCorsOptions None (Some [lit "GET"; lit "HEAD"])
                          (Some []) None)) !! Allow_Headers
    = Some [].
Proof.
  split.
  - exact (proj1 (getCorsHeaders_explicit_lists
             (mkCorsOptions None (Some [lit "GET"; lit "HEAD"]) (Some []) None)
             [lit "GET"; lit "HEAD"]) eq_refl).
  - exact (proj2 (proj2 (proj2 (getCorsHeaders_explicit_lists
             (mkCorsOptions None (Some [lit "GET"; lit "HEAD"]) (Some []) None)
             []))) eq_refl).
Defined.

(** X12.  The headers of the default options, in development and in
    production alike: methods and allowed headers are bound as they are
    when no options are given, credentials to ["true"]; the origin is the
    wildcard in development and the first listed origin,
    [http://localhost:3000], otherwise. *)
Theorem getCorsHeaders_of_defaults (development : bool) :
  let headers := getCorsHeaders (Some (getDefaultCorsOptions development)) in
  headers !! Allow_Methods = getCorsHeaders None !! Allow_Methods /\
  headers !! Allow_Headers = getCorsHeaders None !! Allow_Headers /\
  headers !! Allow_Credentials = Some (lit "true") /\
  headers !! Allow_Origin
    = Some (if development then lit "*" else lit "http://localhost:3000").
Proof.
  cbv zeta. rewrite getCorsHeaders_default.
  rewrite !lookup_Allow_Methods, !lookup_Allow_Headers,
    lookup_Allow_Credentials, lookup_Allow_Origin.
  destruct development; repeat split.
Qed.

Lemma includes_app (xs ys : list jsstring) (x : jsstring) :
  includes (xs ++ ys) x = includes xs x || includes ys x.
Proof. unfold includes. apply existsb_app. Qed.

(** X13.  [isValidOrigin] against two allow-lists put together is the
    disjunction of the two answers; nothing is valid against the empty
    list, and the empty origin is never valid, not even against the
    wildcard. *)
Theorem isValidOrigin_lists (origin : jsstring) (l1 l2 : list jsstring) :
  isValidOrigin origin (l1 ++ l2)
    = isValidOrigin origin l1 || isValidOrigin origin l2 /\
  isValidOrigin origin [] = false /\
  isValidOrigin [] (lit "*" :: l1) = false.
Proof.
  split; [|split].
  - unfold isValidOrigin. destruct (negb (truthy origin)); [reflexivity|].
    rewrite !includes_app.
    destruct (includes l1 origin), (includes l2 origin),
      (includes l1 (lit "*")), (includes l2 (lit "*")); reflexivity.
  - unfold isValidOrigin. now destruct (negb (truthy origin)).
  - reflexivity.
Qed.

(** X14.  The origin header built from an array whose first element is
    not the empty string is an origin that [isValidOrigin] accepts
    against that array. *)
Theorem emitted_origin_is_valid (options : CorsOptions)
    (first : jsstring) (rest : list jsstring) :
  origin options = Some (OriginArray (first :: rest)) ->
  first <> [] ->
  exists h, getCorsHeaders (Some options) !! Allow_Origin = Some h /\
            isValidOrigin h (first :: rest) = true.
Proof.
  intros Ho Hne. rewrite lookup_Allow_Origin, Ho.
  destruct first as [|c first]; [contradiction|].
  eexists. split; [reflexivity|]. simpl.
  unfold isValidOrigin, includes. simpl.
  now rewrite bool_decide_eq_true_2.
Qed.

Lemma emitted_origin_is_valid_witness :
  exists h,
    getCorsHeaders (Some (getDefaultCorsOptions false)) !! Allow_Origin = Some h /\
    isValidOrigin h [lit "http://localhost:3000"; lit "https://your-domain.com"]
    = true.
Proof.
  apply (emitted_origin_is_valid (getDefaultCorsOptions false)
           (lit "http://localhost:3000") [lit "https://your-domain.com"]).
  - reflexivity.
  - discriminate.
Defined.

End CorsMore.

(* ------------------------------------------------------------------ *)
(** ** More about the CSP header *)

Section CspMore.
Import Csp.

Lemma getCSPHeader_with_nonce (n : jsstring) :
  n <> [] ->
  getCSPHeader (Some n) =
  lit "default-src 'self'; script-src 'self' 'unsafe-eval' 'nonce-" ++ n ++
  lit "'; style-src 'self' 'unsafe-inline'; img-src 'self' data: blob:; font-src 'self'; connect-src 'self' ws: wss:; frame-ancestors 'none'; base-uri 'self'; form-action 'self'".
Proof.
  intros Hn. destruct n as [|c n]; [contradiction|].
  rewrite getCSPHeader_unfold. unfold script_src. cbn [truthy].
  rewrite <- !app_assoc. reflexivity.
Qed.

(** X15.  A nonce other than the empty string is copied into the header
    as it is, between fixed text, with no escaping; so two such nonces
    give the same header only when they are the same nonce. *)
Theorem getCSPHeader_nonce_verbatim (n1 n2 : jsstring) :
  n1 <> [] -> n2 <> [] ->
  getCSPHeader (Some n1) =
    lit "default-src 'self'; script-src 'self' 'unsafe-eval' 'nonce-" ++ n1 ++
    lit "'; style-src 'self' 'unsafe-inline'; img-src 'self' data: blob:; font-src 'self'; connect-src 'self' ws: wss:; frame-ancestors 'none'; base-uri 'self'; form-action 'self'" /\
  (getCSPHeader (Some n1) = getCSPHeader (Some n2) -> n1 = n2).
Proof.
  intros H1 H2. split; [now apply getCSPHeader_with_nonce|].
  rewrite (getCSPHeader_with_nonce n1 H1), (getCSPHeader_with_nonce n2 H2).
  intros H. apply app_inv_head in H. now apply app_inv_tail in H.
Qed.

Lemma getCSPHeader_nonce_verbatim_witness :
  getCSPHeader (Some (lit "abc")) =
    lit "default-src 'self'; script-src 'self' 'unsafe-eval' 'nonce-" ++
    lit "abc" ++
    lit "'; style-src 'self' 'unsafe-inline'; img-src 'self' data: blob:; font-src 'self'; connect-src 'self' ws: wss:; frame-ancestors 'none'; base-uri 'self'; form-action 'self'" /\
  (getCSPHeader (Some (lit "abc")) = getCSPHeader (Some (lit "abd")) ->
   lit "abc" = lit "abd").
Proof.
  apply (getCSPHeader_nonce_verbatim (lit "abc") (lit "abd")); discriminate.
Defined.

End CspMore.

(* ------------------------------------------------------------------ *)
(** ** More about the reconnect delay *)

Section BackoffMore.
Import Number Backoff.

Lemma exact_pow2_mono (a a' : Z) :
  (a <= a')%Z -> leb (exact_pow2 a) (exact_pow2 a') = true.
Proof.
  intros H. unfold exact_pow2.
  destruct (Z.ltb_spec 1023 a), (Z.ltb_spec 1023 a'); try lia;
    [reflexivity| |].
  - destruct (Z.ltb_spec a (-1074)); [reflexivity|].
    destruct (Z.leb_spec 0 a); reflexivity.
  - destruct (Z.ltb_spec a (-1074)), (Z.ltb_spec a' (-1074)); try lia.
    + reflexivity.
    + destruct (Z.leb_spec 0 a'); simpl; apply Qle_bool_iff;
        unfold Qle; simpl; [|lia].
      pose proof (Z.pow_pos_nonneg 2 a' ltac:(lia) ltac:(lia)). lia.
    + destruct (Z.leb_spec 0 a), (Z.leb_spec 0 a'); try lia; simpl;
        apply Qle_bool_iff; unfold Qle; cbn [Qnum Qden inject_Z].
      * pose proof (Z.pow_le_mono_r 2 a a' ltac:(lia) H). lia.
      * pose proof (Z.pow_pos_nonneg 2 a' ltac:(lia) ltac:(lia)).
        pose proof (Z.pow_pos_nonneg 2 (- a) ltac:(lia) ltac:(lia)).
        rewrite Z2Pos.id by lia. nia.
      * pose proof (Z.pow_pos_nonneg 2 (- a) ltac:(lia) ltac:(lia)).
        pose proof (Z.pow_pos_nonneg 2 (- a') ltac:(lia) ltac:(lia)).
        pose proof (Z.pow_le_mono_r 2 (- a') (- a) ltac:(lia) ltac:(lia)).
        rewrite !Z2Pos.id by lia. lia.
Qed.

Lemma exact_pow2_nonneg (n : Z) :
  exact_pow2 n = PInf \/ exists a, exact_pow2 n = Fin a /\ (0 <= a)%Q.
Proof.
  unfold exact_pow2.
  destruct (1023 <? n)%Z; [now left|right].
  destruct (n <? -1074)%Z; [exists 0%Q; split; [reflexivity|apply Qle_refl]|].
  destruct (Z.leb_spec 0 n); eexists; (split; [reflexivity|]);
    unfold Qle; cbn [Qnum Qden inject_Z].
  - pose proof (Z.pow_pos_nonneg 2 n ltac:(lia) ltac:(lia)). lia.
  - lia.
Qed.

Lemma mul_pos_PInf (b : Q) : (0 < b)%Q -> mul (Fin b) PInf = PInf.
Proof.
  intros Hb. unfold mul, sign.
  apply Qgt_alt in Hb. now rewrite Hb.
Qed.

Lemma leb_PInf (x : num) : x <> NaN -> leb x PInf = true.
Proof. destruct x; simpl; congruence. Qed.

Lemma leb_NInf (x : num) : x <> NaN -> leb NInf x = true.
Proof. destruct x; simpl; congruence. Qed.

(** Multiplying by a positive number keeps the order. *)
Lemma mul_pos_mono (b : Q) (x y : num) :
  (0 < b)%Q -> leb x y = true ->
  leb (mul (Fin b) x) (mul (Fin b) y) = true.
Proof.
  intros Hb H.
  assert (Hs : (b ?= 0)%Q = Gt) by now apply Qgt_alt.
  destruct x as [| | |a], y as [| | |a']; simpl in H; try discriminate;
    unfold mul, sign; rewrite ?Hs; try reflexivity.
  - apply leb_NInf, round64_not_NaN.
  - apply leb_PInf, round64_not_NaN.
  - apply round64_mono. apply Qle_bool_iff in H.
    rewrite !(Qmult_comm b). apply Qmult_le_compat_r; [exact H|].
    now apply Qlt_le_weak.
Qed.

Lemma min_mono (x y : num) :
  leb x y = true -> leb (min x maxDelay) (min y maxDelay) = true.
Proof.
  unfold maxDelay.
  destruct x as [| | |a], y as [| | |a']; simpl; try discriminate;
    try reflexivity; intros H.
  - now destruct (Qle_bool a' 30000).
  - destruct (Qle_bool a 30000) eqn:E; simpl; [exact E|reflexivity].
  - apply Qle_bool_iff in H.
    destruct (Qle_bool a 30000) eqn:E, (Qle_bool a' 30000) eqn:E'; simpl;
      try reflexivity.
    + now apply Qle_bool_iff.
    + exact E.
    + apply Qle_bool_iff in E'.
      assert (X : Qle_bool a 30000 = true)
        by (apply Qle_bool_iff; now apply Qle_trans with a').
      congruence.
Qed.

Lemma add_mono (x y : num) (v : Q) :
  leb x y = true -> leb (add x (Fin v)) (add y (Fin v)) = true.
Proof.
  destruct x as [| | |a], y as [| | |a']; simpl; try discriminate;
    try reflexivity; intros H.
  - apply leb_NInf, round64_not_NaN.
  - apply leb_PInf, round64_not_NaN.
  - apply round64_mono. apply Qle_bool_iff in H.
    apply Qplus_le_compat; [exact H | apply Qle_refl].
Qed.

(** X16.  With a base delay that is a positive number and a [Math.pow]
    that is exact at the two attempts, a later integer attempt never
    waits less than an earlier one under the same jitter. *)
Theorem calculateBackoffDelay_monotone (Math_pow : num -> num -> num)
    (a a' : Z) (baseDelay : option num) (b jitter : Q) :
  default (Fin 1000) baseDelay = Fin b -> (0 < b)%Q ->
  Math_pow (Fin 2) (Fin (inject_Z a)) = exact_pow2 a ->
  Math_pow (Fin 2) (Fin (inject_Z a')) = exact_pow2 a' ->
  (0 <= jitter)%Q -> (jitter < 1)%Q -> (a <= a')%Z ->
  leb (calculateBackoffDelay Math_pow (Fin (inject_Z a)) baseDelay (Fin jitter))
      (calculateBackoffDelay Math_pow (Fin (inject_Z a')) baseDelay (Fin jitter))
  = true.
Proof.
  intros Eb Hb Ea Ea' H0 H1 Ha. unfold calculateBackoffDelay, delay. cbv zeta.
  rewrite Eb, Ea, Ea'.
  destruct (jitter_term jitter H0 H1) as (v & -> & _).
  apply add_mono, min_mono, mul_pos_mono; [exact Hb|].
  now apply exact_pow2_mono.
Qed.

Lemma calculateBackoffDelay_monotone_witness :
  leb (calculateBackoffDelay pow_of_two (Fin (inject_Z 1)) None (Fin (1 # 4)))
      (calculateBackoffDelay pow_of_two (Fin (inject_Z 3)) None (Fin (1 # 4)))
  = true.
Proof.
  apply (calculateBackoffDelay_monotone pow_of_two 1 3 None 1000 (1 # 4));
    try reflexivity; try discriminate.
Defined.

(** X17.  With the default base delay of 1000 and a [Math.pow] that is
    exact at the attempt, the cap sets in at attempt 5: up to attempt 4
    the result is 1000 times 2 to the attempt, plus the jitter term; from
    attempt 5 on it is 30000 plus the jitter term. *)
Theorem calculateBackoffDelay_default_base (Math_pow : num -> num -> num)
    (attempt : Z) (jitter : num) :
  Math_pow (Fin 2) (Fin (inject_Z attempt)) = exact_pow2 attempt ->
  ((attempt <= 4)%Z ->
     calculateBackoffDelay Math_pow (Fin (inject_Z attempt)) None jitter
     = add (mul (Fin 1000) (exact_pow2 attempt)) (mul jitter (Fin 1000))) /\
  ((5 <= attempt)%Z ->
     calculateBackoffDelay Math_pow (Fin (inject_Z attempt)) None jitter
     = add (Fin 30000) (mul jitter (Fin 1000))).
Proof.
  intros E. unfold calculateBackoffDelay, delay, maxDelay. cbv zeta.
  cbn [default from_option id]. rewrite E.
  split; intros H; f_equal.
  - pose proof (exact_pow2_mono attempt 4 H) as M.
    apply (mul_pos_mono 1000) in M; [|reflexivity].
    change (mul (Fin 1000) (exact_pow2 4)) with (Fin 16000) in M.
    destruct (mul (Fin 1000) (exact_pow2 attempt)) as [| | |x];
      simpl in M; try discriminate; [reflexivity|].
    simpl. apply Qle_bool_iff in M.
    assert (X : Qle_bool x 30000 = true).
    { apply Qle_bool_iff. apply Qle_trans with 16000%Q; [exact M|discriminate]. }
    now rewrite X.
  - pose proof (exact_pow2_mono 5 attempt H) as M.
    apply (mul_pos_mono 1000) in M; [|reflexivity].
    change (mul (Fin 1000) (exact_pow2 5)) with (Fin 32000) in M.
    destruct (mul (Fin 1000) (exact_pow2 attempt)) as [| | |x];
      simpl in M; try discriminate; [reflexivity|].
    simpl. apply Qle_bool_iff in M.
    destruct (Qle_bool x 30000) eqn:X; [|reflexivity].
    apply Qle_bool_iff in X. exfalso.
    assert (C : (32000 <= 30000)%Q) by (now apply Qle_trans with x).
    now apply C.
Qed.

Lemma calculateBackoffDelay_default_base_witness :
  calculateBackoffDelay pow_of_two (Fin (inject_Z 3)) None (Fin (1 # 2))
    = add (mul (Fin 1000) (exact_pow2 3)) (mul (Fin (1 # 2)) (Fin 1000)) /\
  calculateBackoffDelay pow_of_two (Fin (inject_Z 9)) None (Fin (1 # 2))
    = add (Fin 30000) (mul (Fin (1 # 2)) (Fin 1000)).
Proof.
  split.
  - apply (proj1 (calculateBackoffDelay_default_base pow_of_two 3
                    (Fin (1 # 2)) eq_refl)). discriminate.
  - apply (proj2 (calculateBackoffDelay_default_base pow_of_two 9
                    (Fin (1 # 2)) eq_refl)). discriminate.
Defined.

End BackoffMore.

(* ------------------------------------------------------------------ *)
(** ** The guarded [window] and [document] *)

Section SsrMore.
Import Ssr.
Context {W : Type}.

(** X18.  [safeWindow] never raises: it returns [window] where that is
    defined and [null] elsewhere.  [safeDocument] returns [null] where
    [window] is not defined; where it is, [safeDocument] returns
    [document] if that is defined and raises a ReferenceError if not. *)
Theorem safe_globals (e : env W) :
  safeWindow e = Normal (window e) /\
  (window e = None -> safeDocument e = Normal None) /\
  (window e <> None ->
     safeDocument e = match document e with
                      | Some d => Normal (Some d)
                      | None => Throw (ReferenceError "document")
                      end) /\
  (returns (safeDocument e) <-> window e = None \/ document e <> None).
Proof.
  unfold safeWindow, safeDocument, isServer.
  destruct (window e) as [w|], (document e) as [d|]; simpl;
    (split; [reflexivity|]); (split; [try reflexivity; discriminate|]);
    (split; [try reflexivity; intros H; now contradiction H|]).
  - split; [intros _; right; discriminate | intros _; eexists; reflexivity].
  - split; [intros [v Hv]; discriminate | intros [H|H]; [discriminate|now contradiction H]].
  - split; [intros _; now left | intros _; eexists; reflexivity].
  - split; [intros _; now left | intros _; eexists; reflexivity].
Qed.

End SsrMore.

Lemma safe_globals_witness :
  Ssr.safeDocument (server (W := unit) None (fun _ => [])) = Normal None.
Proof.
  apply (proj1 (proj2 (safe_globals
           (server (W := unit) None (fun _ => []))))).
  reflexivity.
Defined.

(* ------------------------------------------------------------------ *)
(** ** [validateInput], exactly *)

Section ValidateInputExact.
Import RegExp Security.

Lemma char_match_lowered (a b : N) :
  char_match true a b = true -> ascii_lower a = a -> ascii_lower b = a.
Proof.
  unfold char_match, canonicalize, ascii_lower, in_range. simpl andb.
  intros H. apply N.eqb_eq in H. revert H.
  destruct (N.leb_spec 97 a), (N.leb_spec a 122),
    (N.leb_spec 97 b), (N.leb_spec b 122),
    (N.leb_spec 65 a), (N.leb_spec a 90),
    (N.leb_spec 65 b), (N.leb_spec b 90); simpl; lia.
Qed.

Lemma agreeing_lowers (p mid : jsstring) :
  Forall2 (fun a b => char_match true a b = true) p mid ->
  map ascii_lower p = p -> map ascii_lower mid = p.
Proof.
  induction 1 as [|a b p mid Hab _ IH]; [reflexivity|].
  simpl. intros [= Ha Hp]. f_equal.
  - now apply char_match_lowered.
  - now apply IH.
Qed.

(** A case-insensitive literal written in lower case is found exactly
    where it occurs in some letter case. *)
Lemma test_literal_iff (p input : jsstring) :
  map ascii_lower p = p ->
  test (mkRegExp (Lit p) true) input = true <-> occurs_in_any_case p input.
Proof.
  intros Hp. split; [|apply test_literal_any_case].
  unfold test; cbn [source ignoreCase]. intros T.
  apply search_spec in T as (pre & mid & post & -> & Hl).
  apply lang_Lit in Hl. exists mid. split.
  - now apply agreeing_lowers.
  - now exists pre, post.
Qed.

Lemma lang_Seq_inv (r1 r2 : pattern) (s : jsstring) :
  lang true (Seq r1 r2) s ->
  exists s1 s2, s = s1 ++ s2 /\ lang true r1 s1 /\ lang true r2 s2.
Proof. intros H. inversion H; subst. eauto. Qed.

Lemma lang_Cls_inv (k : char_class) (s : jsstring) :
  lang true (Cls k) s -> exists c, s = [c] /\ class_mem k c = true.
Proof.
  intros H. inversion H as [| |? c Hc| | | | |]; subst. exists c.
  split; [reflexivity|]. unfold class_match in Hc.
  now rewrite class_mem_canonicalize in Hc.
Qed.

Lemma lang_Star_class_inv (k : char_class) (s : jsstring) :
  lang true (Star (Cls k)) s -> Forall (fun c => class_mem k c = true) s.
Proof.
  intros H. remember (Star (Cls k)) as r eqn:Hr.
  induction H as [|p c Hc|k' c Hc|r1 r2 s1 s2 H1 IH1 H2 IH2
                  |r1 r2 s H IH|r1 r2 s H IH|r|r s1 s2 H1 IH1 H2 IH2];
    try discriminate.
  - constructor.
  - injection Hr as ->. apply lang_Cls_inv in H1 as (c & -> & Hc).
    simpl. constructor; [exact Hc | now apply IH2].
Qed.

(** The third pattern is found exactly where the shape of an event
    handler attribute occurs. *)
Lemma test_event_handler_iff (input : jsstring) :
  test (mkRegExp (Seq (Lit (lit "on"))
          (Seq (Plus (Cls Word)) (Seq (Star (Cls Space)) (Chr 61)))) true)
       input = true <->
  exists mid, event_handler_shape mid /\ occurs_in mid input.
Proof.
  unfold test; cbn [source ignoreCase]. rewrite search_spec. split.
  - intros (pre & mid & post & -> & Hl). exists mid. split; [|now exists pre, post].
    apply lang_Seq_inv in Hl as (on_kw & rest & -> & Hon & Hl).
    apply lang_Seq_inv in Hl as (name & rest' & -> & Hname & Hl).
    apply lang_Seq_inv in Hl as (spaces & eq & -> & Hsp & Heq).
    unfold Plus in Hname.
    apply lang_Seq_inv in Hname as (n1 & n2 & -> & Hn1 & Hn2).
    apply lang_Cls_inv in Hn1 as (c & -> & Hc).
    apply lang_Star_class_inv in Hn2. apply lang_Star_class_inv in Hsp.
    inversion Heq as [|? d Hd| | | | | |]; subst.
    unfold char_match in Hd. apply N.eqb_eq in Hd.
    apply canonicalize_below_letters in Hd; [subst d | reflexivity].
    exists on_kw, ([c] ++ n2), spaces. split; [reflexivity|].
    split; [|split; [discriminate|split; [|exact Hsp]]].
    + apply (proj1 (lang_Lit true (lit "on") on_kw)) in Hon.
      now apply agreeing_lowers.
    + simpl. now constructor.
  - intros (mid & (on_kw & name & spaces & -> & Hon & Hne & Hname & Hsp)
            & pre & post & ->).
    exists pre, (on_kw ++ name ++ spaces ++ lit "="), post.
    split; [reflexivity|]. constructor.
    + apply (proj2 (lang_Lit true (lit "on") on_kw)).
      rewrite <- Hon. apply lowered_agrees.
    + constructor; [|constructor].
      * destruct name as [|c name]; [contradiction|].
        inversion Hname as [|? ? Hc Hrest]; subst.
        change (c :: name) with ([c] ++ name). constructor.
        -- constructor. unfold class_match. now rewrite class_mem_canonicalize.
        -- now apply lang_Star_class.
      * now apply lang_Star_class.
      * now constructor.
Qed.

(** X19.  [validateInput] accepts an input exactly when it is not empty,
    is no longer than the limit (1000 when omitted), holds none of
    [<script], [javascript:] and [data:text/html] in any letter case,
    and holds nothing of the shape of an event handler attribute. *)
Theorem validateInput_exactly (input : jsstring) (maxLength : option Q) :
  validateInput input maxLength = true <->
  input <> [] /\
  (length_of input <= default (1000 # 1) maxLength)%Q /\
  ~ occurs_in_any_case (lit "<script") input /\
  ~ occurs_in_any_case (lit "javascript:") input /\
  ~ occurs_in_any_case (lit "data:text/html") input /\
  ~ (exists mid, event_handler_shape mid /\ occurs_in mid input).
Proof.
  rewrite validateInput_true_iff.
  assert (Hfalse : forall b : bool, b = false <-> ~ b = true)
    by (intros []; split; congruence).
  split.
  - intros (Hne & Hlen & Hpat). split; [exact Hne|]. split; [exact Hlen|].
    repeat split.
    + rewrite <- (test_literal_iff (lit "<script") input eq_refl).
      apply Hfalse, Hpat. simpl; auto.
    + rewrite <- (test_literal_iff (lit "javascript:") input eq_refl).
      apply Hfalse, Hpat. simpl; auto.
    + rewrite <- (test_literal_iff (lit "data:text/html") input eq_refl).
      apply Hfalse, Hpat. simpl; auto.
    + rewrite <- test_event_handler_iff. apply Hfalse, Hpat. simpl; auto.
  - intros (Hne & Hlen & H1 & H2 & H3 & H4).
    split; [exact Hne|]. split; [exact Hlen|].
    intros re Hre. apply Hfalse.
    simpl in Hre. destruct Hre as [<- | [<- | [<- | [<- | []]]]].
    + now rewrite (test_literal_iff (lit "<script") input eq_refl).
    + now rewrite (test_literal_iff (lit "javascript:") input eq_refl).
    + now rewrite test_event_handler_iff.
    + now rewrite (test_literal_iff (lit "data:text/html") input eq_refl).
Qed.

End ValidateInputExact.

(* ------------------------------------------------------------------ *)
(** ** Joined lists in the headers *)

Section JoinFacts.
Import Cors.

Lemma occurs_in_join (sep : jsstring) (parts : list jsstring) (x : jsstring) :
  In x parts -> occurs_in x (join sep parts).
Proof.
  induction parts as [|p parts IH]; [intros []|].
  intros [-> | Hin].
  - destruct parts as [|q parts].
    + exists [], []. simpl. now rewrite app_nil_r.
    + exists [], (sep ++ join sep (q :: parts)). reflexivity.
  - destruct parts as [|q parts]; [destruct Hin|].
    destruct (IH Hin) as (pre & post & E).
    exists (p ++ sep ++ pre), post.
    change (join sep (p :: q :: parts)) with (p ++ sep ++ join sep (q :: parts)).
    rewrite E. now rewrite <- !app_assoc.
Qed.

(** X20.  Every method of an explicit methods array, and every header
    name of an explicit allowed-headers array, occurs in the header built
    from it. *)
Theorem getCorsHeaders_lists_members (options : CorsOptions)
    (ms : list jsstring) (x : jsstring) :
  In x ms ->
  (methods options = Some ms ->
     exists h, getCorsHeaders (Some options) !! Allow_Methods = Some h /\
               occurs_in x h) /\
  (allowedHeaders options = Some ms ->
     exists h, getCorsHeaders (Some options) !! Allow_Headers = Some h /\
               occurs_in x h).
Proof.
  intros Hin. split; intros H;
    rewrite ?lookup_Allow_Methods, ?lookup_Allow_Headers, H;
    eexists; (split; [reflexivity|]); now apply occurs_in_join.
Qed.

Lemma getCorsHeaders_lists_members_witness :
  exists h,
    getCorsHeaders (Some (getDefaultCorsOptions true)) !! Allow_Methods = Some h /\
    occurs_in (lit "PUT") h.
Proof.
  apply (proj1 (getCorsHeaders_lists_members (getDefaultCorsOptions true)
                  [lit "GET"; lit "POST"; lit "PUT"; lit "DELETE"; lit "OPTIONS"]
                  (lit "PUT") ltac:(simpl; auto))).
  reflexivity.
Defined.

End JoinFacts.
